(** * ReturnMetrics: a shallow embedding of [return_metrics.py]

    The Python class [ReturnMetrics] wraps an input table of return series
    and a result table that grows by one or more columns with every chained
    statistic call.  This development embeds

    - the column reductions of the tabular engine that the class calls
      (mean, variance, quantile, cumulative product, cumulative maximum,
      minimum, index of the minimum / maximum, slicing by index, column
      assignment with alignment);
    - the object store in which tables and accumulators live, so that
      copies, in-place column assignment and object identity are explicit;
    - the constructor, [__getattr__], [__dir__], [df], [_with_column],
      [_with_columns] and every statistic method of the class, in a
      state-and-exception monad over that store.

    Numbers: a cell of the input table is a finite float, modelled as an
    exact rational ([Q]); rounding and overflow of binary64 arithmetic are
    outside this model, which carries the statements about the store, the
    tables and the order of values.  Module [Binary64] has the arithmetic
    of the class on hardware floats, for the statements about values.
    Divisions keep the IEEE outcome of dividing by zero ([CNaN],
    [CPosInf], [CNegInf]).  The square root used by [std] and [sharpe] and
    the moment reductions behind [skew] and [kurtosis] are primitives of
    the engine and are taken as parameters of a section. *)

From Stdlib Require Import QArith Qminmax Qround Lqa ZArith Lia String List Bool.
From Stdlib Require Import Floats Uint63 Sorted.
From stdpp Require Import base list strings.

Local Open Scope string_scope.
Local Open Scope Q_scope.

(** ** Cells, tables, series *)

(** A cell of a result table or of an intermediate float series. *)
Inductive Cell :=
  | CNum (q : Q)      (* a finite number *)
  | CNaN              (* NaN, NaT, None *)
  | CNegInf
  | CPosInf
  | CTime (t : Z).    (* a label of a non-integer (time-like) index *)

(** The dtype of the input table's index decides how [s[:t]] and [s[t:]]
    slice: by position for an integer index, by label otherwise. *)
Inductive IndexKind := IntIndex | LabelIndex.

(** The input table: time steps are rows, assets are columns. *)
Record InputTable := {
  tkind : IndexKind;
  tindex : list Z;
  tcolumns : list (string * list Q)
}.

(** The result table: assets are rows, statistics are columns, in
    insertion order. *)
Record ResultTable := {
  rindex : list string;
  rcolumns : list (string * list Cell)
}.

(** A [pd.Series] indexed by asset name. *)
Definition Series := list (string * Cell).

(** A [pd.Series] indexed by time label. *)
Definition TimeSeries (A : Type) := list (Z * A).

Inductive exn :=
  | NotImplementedError (msg : string)
  | AttributeError (msg : string)
  | ValueError (msg : string)
  | KeyError (msg : string)
  | TypeError (msg : string)
  | ZeroDivisionError (msg : string).

(** ** Float-like arithmetic on cells *)

Definition Qeqb (a b : Q) : bool := Qle_bool a b && Qle_bool b a.
Definition Qltb (a b : Q) : bool := negb (Qle_bool b a).

(** [x / y] with the IEEE outcome when [y] is zero. *)
Definition q_div (x y : Q) : Cell :=
  if Qeqb y 0 then
    if Qeqb x 0 then CNaN else if Qltb 0 x then CPosInf else CNegInf
  else CNum (x / y).

(** [c * s] for a finite scalar [s]. *)
Definition cell_scale (c : Cell) (s : Q) : Cell :=
  match c with
  | CNum q => CNum (q * s)
  | CNegInf => if Qeqb s 0 then CNaN else if Qltb 0 s then CNegInf else CPosInf
  | CPosInf => if Qeqb s 0 then CNaN else if Qltb 0 s then CPosInf else CNegInf
  | CNaN | CTime _ => CNaN
  end.

(** [c - s] for a finite scalar [s]. *)
Definition cell_sub (c : Cell) (s : Q) : Cell :=
  match c with
  | CNum q => CNum (q - s)
  | CTime _ => CNaN
  | other => other
  end.

(** [a / b], element of [Series / Series]. *)
Definition cell_div (a b : Cell) : Cell :=
  match a, b with
  | CNum x, CNum y => q_div x y
  | CNum x, (CNegInf | CPosInf) => CNum 0
  | CPosInf, CNum y => if Qltb y 0 then CNegInf else CPosInf
  | CNegInf, CNum y => if Qltb y 0 then CPosInf else CNegInf
  | _, _ => CNaN
  end.

(** The order of floats on cells that are not NaN. *)
Definition cell_leb (a b : Cell) : bool :=
  match a, b with
  | CNegInf, _ => true
  | _, CPosInf => true
  | CNum x, CNum y => Qle_bool x y
  | _, _ => false
  end.

Definition cell_ltb (a b : Cell) : bool := negb (cell_leb b a).

Definition is_nan (c : Cell) : bool :=
  match c with CNaN | CTime _ => true | _ => false end.

(** Equality of cells up to the representation of a rational. *)
Definition cell_eq (a b : Cell) : Prop :=
  match a, b with
  | CNum x, CNum y => x == y
  | CNaN, CNaN | CNegInf, CNegInf | CPosInf, CPosInf => True
  | CTime s, CTime t => s = t
  | _, _ => False
  end.

(** ** Column reductions of the engine *)

Definition Qsum (xs : list Q) : Q := fold_right Qplus 0 xs.

Definition Qlen (xs : list Q) : Q := inject_Z (Z.of_nat (length xs)).

(** [Series.mean()]: NaN on an empty column. *)
Definition col_mean (xs : list Q) : Cell :=
  match xs with
  | [] => CNaN
  | _ => CNum (Qsum xs / Qlen xs)
  end.

(** Sample variance, [ddof = 1]: undefined below two observations. *)
Definition col_var (xs : list Q) : option Q :=
  match xs with
  | [] | [_] => None
  | _ =>
      let m := Qsum xs / Qlen xs in
      Some (Qsum (map (fun x => (x - m) * (x - m)) xs) / (Qlen xs - 1))
  end.

(** Insertion sort, ascending. *)
Fixpoint insert_sorted (x : Q) (l : list Q) : list Q :=
  match l with
  | [] => [x]
  | y :: r => if Qle_bool x y then x :: l else y :: insert_sorted x r
  end.

Definition sort_asc (l : list Q) : list Q := fold_right insert_sorted [] l.

(** [Series.quantile(q)] with linear interpolation, for [0 <= q <= 1]. *)
Definition col_quantile (q : Q) (xs : list Q) : Cell :=
  match sort_asc xs with
  | [] => CNaN
  | (x0 :: _) as s =>
      let h := (Qlen xs - 1) * q in
      let lo := Z.to_nat (Qfloor h) in
      let frac := h - inject_Z (Qfloor h) in
      let a := nth lo s x0 in
      let b := nth (S lo) s a in
      CNum (a + frac * (b - a))
  end.

(** [cumprod]: running product, in time order. *)
Fixpoint cumprod_from (acc : Q) (xs : list Q) : list Q :=
  match xs with
  | [] => []
  | x :: r => (acc * x) :: cumprod_from (acc * x) r
  end.

Definition cumprod (xs : list Q) : list Q :=
  match xs with
  | [] => []
  | x :: r => x :: cumprod_from x r
  end.

Definition qmax (a b : Q) : Q := if Qle_bool a b then b else a.

(** [cummax]: running maximum, in time order. *)
Fixpoint cummax_from (acc : Q) (xs : list Q) : list Q :=
  match xs with
  | [] => []
  | x :: r => qmax acc x :: cummax_from (qmax acc x) r
  end.

Definition cummax (xs : list Q) : list Q :=
  match xs with
  | [] => []
  | x :: r => x :: cummax_from x r
  end.

(** [(cumulative - peak) / peak], element by element. *)
Fixpoint drawdown_of (cumulative peak : list Q) : list Cell :=
  match cumulative, peak with
  | w :: ws, p :: ps => q_div (w - p) p :: drawdown_of ws ps
  | _, _ => []
  end.

(** [Series.min()], skipping NaN: NaN when nothing is left. *)
Fixpoint cells_min (cs : list Cell) : Cell :=
  match cs with
  | [] => CNaN
  | c :: r =>
      let m := cells_min r in
      if is_nan c then m
      else if is_nan m then c
      else if cell_leb c m then c else m
  end.

(** Position of the first minimum, skipping NaN. *)
Fixpoint argmin_from (best : nat) (bv : Cell) (i : nat) (cs : list Cell) : nat :=
  match cs with
  | [] => best
  | c :: r =>
      if is_nan c then argmin_from best bv (S i) r
      else if cell_ltb c bv then argmin_from i c (S i) r
      else argmin_from best bv (S i) r
  end.

Fixpoint argmin_at (i : nat) (cs : list Cell) : option nat :=
  match cs with
  | [] => None
  | c :: r =>
      if is_nan c then argmin_at (S i) r
      else Some (argmin_from i c (S i) r)
  end.

Definition argmin (cs : list Cell) : option nat := argmin_at 0 cs.

(** Position of the first maximum of a column of finite numbers. *)
Fixpoint argmax_from (best : nat) (bv : Q) (i : nat) (xs : list Q) : nat :=
  match xs with
  | [] => best
  | x :: r =>
      if Qltb bv x then argmax_from i x (S i) r
      else argmax_from best bv (S i) r
  end.

Definition argmax (xs : list Q) : option nat :=
  match xs with
  | [] => None
  | x :: r => Some (argmax_from 0%nat x 1%nat r)
  end.

(** ** Results of fallible pure code *)

Inductive res (A : Type) :=
  | Done (a : A)
  | Fail (e : exn).
Arguments Done {A} a.
Arguments Fail {A} e.

Definition res_bind {A B} (r : res A) (k : A -> res B) : res B :=
  match r with
  | Done a => k a
  | Fail e => Fail e
  end.

Declare Scope res_scope.
Delimit Scope res_scope with res.
Notation "'let?' x ':=' r 'in' k" := (res_bind r (fun x => k))
  (at level 100, x pattern, r at next level, right associativity) : res_scope.

Definition of_option {A} (o : option A) (e : exn) : res A :=
  match o with
  | Some a => Done a
  | None => Fail e
  end.

(** ** Time-indexed series: lookup and slicing *)

(** Position of the first occurrence of a label. *)
Fixpoint pos_of (t : Z) (index : list Z) : option nat :=
  match index with
  | [] => None
  | l :: r => if (l =? t)%Z then Some 0%nat else option_map S (pos_of t r)
  end.

(** Python's normalisation of a slice bound against a length. *)
Definition py_bound (n : nat) (t : Z) : nat :=
  if (t <? 0)%Z then Z.to_nat (Z.of_nat n + t) else Z.to_nat t.

(** [s[:t]]: the first [t] positions under an integer index, everything up
    to and including label [t] otherwise. *)
Definition slice_to {A} (kind : IndexKind) (t : Z) (s : TimeSeries A)
  : res (TimeSeries A) :=
  match kind with
  | IntIndex => Done (firstn (py_bound (length s) t) s)
  | LabelIndex =>
      match pos_of t (map fst s) with
      | Some p => Done (firstn (S p) s)
      | None => Fail (KeyError "label not in index")
      end
  end.

(** [s[t:]]: from position [t] under an integer index, from label [t]
    otherwise. *)
Definition slice_from {A} (kind : IndexKind) (t : Z) (s : TimeSeries A)
  : res (TimeSeries A) :=
  match kind with
  | IntIndex => Done (skipn (py_bound (length s) t) s)
  | LabelIndex =>
      match pos_of t (map fst s) with
      | Some p => Done (skipn p s)
      | None => Fail (KeyError "label not in index")
      end
  end.

(** [s[t]]: the value at label [t] (by label also under an integer index). *)
Definition getitem {A} (t : Z) (s : TimeSeries A) : res A :=
  match pos_of t (map fst s) with
  | Some p => of_option (nth_error (map snd s) p) (KeyError "label not in index")
  | None => Fail (KeyError "label not in index")
  end.

(** [Series.idxmin()]: label of the first minimum, skipping NaN. *)
Definition idxmin (s : TimeSeries Cell) : res Z :=
  match argmin (map snd s) with
  | Some p => of_option (nth_error (map fst s) p)
                (ValueError "attempt to get argmin of an empty sequence")
  | None => Fail (ValueError "attempt to get argmin of an empty sequence")
  end.

(** [Series.idxmax()]: label of the first maximum. *)
Definition idxmax (s : TimeSeries Q) : res Z :=
  match argmax (map snd s) with
  | Some p => of_option (nth_error (map fst s) p)
                (ValueError "attempt to get argmax of an empty sequence")
  | None => Fail (ValueError "attempt to get argmax of an empty sequence")
  end.

(** [s.loc[mask]] for a boolean series [mask]: the mask is aligned to the
    labels of [s]. *)
Definition loc_mask {A} (mask : TimeSeries bool) (s : TimeSeries A)
  : TimeSeries A :=
  List.filter (fun lv => match getitem (fst lv) mask with
                    | Done b => b
                    | Fail _ => false
                    end) s.

(** [Series.first_valid_index()] of a series of finite numbers. *)
Definition first_valid_index (s : TimeSeries Q) : option Z :=
  match s with
  | [] => None
  | (l, _) :: _ => Some l
  end.

(** ** The drawdown computation of [max_drawdown] *)

(** [(1 + data).cumprod()] for one column. *)
Definition cumulative_of (returns : list Q) : list Q :=
  cumprod (map (fun r => 1 + r) returns).

(** The body of the [for col in self.data.columns] loop, for one column:
    peak date, trough date and recovery date. *)
Definition details_of (kind : IndexKind) (index : list Z)
    (cumulative peak : list Q) (drawdown : list Cell)
  : res (Z * Z * option Z) :=
  (let? trough_date := idxmin (combine index drawdown) in
   let? before := slice_to kind trough_date (combine index cumulative) in
   let? peak_date := idxmax before in
   let? after := slice_from kind trough_date (combine index cumulative) in
   let? peak_value := getitem peak_date (combine index peak) in
   let mask := map (fun lv => (fst lv, Qle_bool peak_value (snd lv)))
                   (combine index cumulative) in
   Done (peak_date, trough_date, first_valid_index (loc_mask mask after)))%res.

(** A date stored in a series whose dtype is [self._index_type]: a float
    under an integer index, a time stamp otherwise. *)
Definition date_cell (kind : IndexKind) (t : Z) : Cell :=
  match kind with
  | IntIndex => CNum (inject_Z t)
  | LabelIndex => CTime t
  end.

Definition opt_date_cell (kind : IndexKind) (o : option Z) : Cell :=
  match o with
  | Some t => date_cell kind t
  | None => CNaN
  end.

(** Lookup of a column by name. *)
Fixpoint assoc {A} (k : string) (l : list (string * A)) : option A :=
  match l with
  | [] => None
  | (k', v) :: r => if String.eqb k' k then Some v else assoc k r
  end.

(** [series.loc[col] = v]. *)
Definition series_set_loc (col : string) (v : Cell) (s : Series) : Series :=
  map (fun kv => if String.eqb (fst kv) col then (fst kv, v) else kv) s.

(** The frames [cumulative], [peak] and [drawdown], column by column. *)
Definition cumulative_frame (d : InputTable) : list (string * list Q) :=
  map (fun cv => (fst cv, cumulative_of (snd cv))) (tcolumns d).

Definition peak_frame (d : InputTable) : list (string * list Q) :=
  map (fun cv => (fst cv, cummax (snd cv))) (cumulative_frame d).

Definition drawdown_frame (d : InputTable) : list (string * list Cell) :=
  map (fun cv => (fst cv, drawdown_of (snd cv) (cummax (snd cv))))
      (cumulative_frame d).

(** [drawdown.min()]. *)
Definition max_drawdown_series (d : InputTable) : Series :=
  map (fun cv => (fst cv, cells_min (snd cv))) (drawdown_frame d).

(** The three date series, filled by the loop over the columns. *)
Fixpoint details_loop (d : InputTable) (index_type : IndexKind)
    (cols : list string) (dates : Series * Series * Series)
  : res (Series * Series * Series) :=
  match cols with
  | [] => Done dates
  | col :: rest =>
      let '(peak_dates, through_dates, recovery_dates) := dates in
      (let? dd := of_option (assoc col (drawdown_frame d)) (KeyError col) in
       let? cum := of_option (assoc col (cumulative_frame d)) (KeyError col) in
       let? pk := of_option (assoc col (peak_frame d)) (KeyError col) in
       let? (peak_date, trough_date, recovery_date) :=
         details_of (tkind d) (tindex d) cum pk dd in
       details_loop d index_type rest
         (series_set_loc col (date_cell index_type peak_date) peak_dates,
          series_set_loc col (date_cell index_type trough_date) through_dates,
          series_set_loc col (opt_date_cell index_type recovery_date)
            recovery_dates))%res
  end.

Definition column_names {A} (cols : list (string * A)) : list string :=
  map fst cols.

(** [pd.Series(index=self.data.columns, dtype=self._index_type)]. *)
Definition empty_dates (d : InputTable) : Series :=
  map (fun c => (c, CNaN)) (column_names (tcolumns d)).

(** A Python [dict] with string keys: insertion ordered, one entry per key. *)
Fixpoint dict_set {A} (k : string) (v : A) (d : list (string * A))
  : list (string * A) :=
  match d with
  | [] => [(k, v)]
  | (k', v') :: r =>
      if String.eqb k' k then (k', v) :: r else (k', v') :: dict_set k v r
  end.

Definition dict_update {A} (d upd : list (string * A)) : list (string * A) :=
  fold_left (fun acc kv => dict_set (fst kv) (snd kv) acc) upd d.

(** The dictionary [new_data] that [max_drawdown] hands to
    [_with_columns]. *)
Definition max_drawdown_data (d : InputTable) (index_type : IndexKind)
    (name : string) (details : bool) : res (list (string * Series)) :=
  let new_data := [(name, max_drawdown_series d)] in
  if details then
    (let? (peak_dates, through_dates, recovery_dates) :=
       details_loop d index_type (column_names (tcolumns d))
         (empty_dates d, empty_dates d, empty_dates d) in
     Done (dict_update new_data
             [(name ++ "_peak_date", peak_dates);
              (name ++ "_trough_date", through_dates);
              (name ++ "_recovery_date", recovery_dates)]))%res
  else Done new_data.

(** ** The object store *)

(** A reference is a position in the store. *)
Abbreviation loc := nat (only parsing).

(** The instance dictionary of a [ReturnMetrics] object: the two tables are
    held by reference. *)
Record ReturnMetrics := {
  data : loc;
  annualization : Z;
  results : loc;
  _index_type : IndexKind
}.

Inductive object :=
  | OInput (d : InputTable)
  | OResults (t : ResultTable)
  | OMetrics (m : ReturnMetrics).

(** Objects are allocated at the end of the store and never freed. *)
Abbreviation heap := (list object) (only parsing).

Inductive outcome (A : Type) :=
  | Return (a : A) (h : heap)
  | Raise (e : exn) (h : heap).
Arguments Return {A} a h.
Arguments Raise {A} e h.

Definition M (A : Type) := heap -> outcome A.

Definition ret {A} (a : A) : M A := fun h => Return a h.

Definition bind {A B} (c : M A) (k : A -> M B) : M B :=
  fun h => match c h with
           | Return a h' => k a h'
           | Raise e h' => Raise e h'
           end.

Definition raise {A} (e : exn) : M A := fun h => Raise e h.

Declare Scope heap_scope.
Delimit Scope heap_scope with heap.
Notation "x <- c ;; k" := (bind c (fun x => k))
  (at level 100, c at next level, right associativity) : heap_scope.
Notation "c ;;; k" := (bind c (fun _ => k))
  (at level 100, right associativity) : heap_scope.
Local Open Scope heap_scope.

Definition lift {A} (r : res A) : M A :=
  match r with
  | Done a => ret a
  | Fail e => raise e
  end.

Definition alloc (o : object) : M loc :=
  fun h => Return (length h) (h ++ [o])%list.

Definition write (l : loc) (o : object) : M unit :=
  fun h => Return tt (<[l := o]> h).

Definition read_input (l : loc) : M InputTable :=
  fun h => match h !! l with
           | Some (OInput d) => Return d h
           | _ => Raise (TypeError "not an input table") h
           end.

Definition read_results (l : loc) : M ResultTable :=
  fun h => match h !! l with
           | Some (OResults t) => Return t h
           | _ => Raise (TypeError "not a result table") h
           end.

Definition read_metrics (l : loc) : M ReturnMetrics :=
  fun h => match h !! l with
           | Some (OMetrics m) => Return m h
           | _ => Raise (TypeError "not a ReturnMetrics") h
           end.

(** ** Column assignment on a result table *)

Fixpoint names_eqb (a b : list string) : bool :=
  match a, b with
  | [], [] => true
  | x :: a', y :: b' => String.eqb x y && names_eqb a' b'
  | _, _ => false
  end.

Definition mem (k : string) (l : list string) : bool :=
  existsb (String.eqb k) l.

Fixpoint nodupb (l : list string) : bool :=
  match l with
  | [] => true
  | x :: r => negb (mem x r) && nodupb r
  end.

(** A table without rows adopts the index of the first non-empty series
    assigned to it; its columns, empty so far, are filled with NaN. *)
Definition ensure_valid_index (t : ResultTable) (series : Series)
  : ResultTable :=
  match rindex t, series with
  | [], _ :: _ =>
      {| rindex := map fst series;
         rcolumns := map (fun cv => (fst cv, map (fun _ => CNaN) series))
                         (rcolumns t) |}
  | _, _ => t
  end.

(** The values of [series] aligned to the rows of the table. *)
Definition reindex_for_setitem (series : Series) (index : list string)
  : res (list Cell) :=
  if names_eqb (map fst series) index || names_eqb index [] then
    Done (map snd series)
  else if nodupb (map fst series) then
    Done (map (fun r => match assoc r series with
                        | Some c => c
                        | None => CNaN
                        end) index)
  else Fail (ValueError "cannot reindex on an axis with duplicate labels").

(** [frame[name] = values]: every column called [name] is overwritten in
    place; a new name is appended after the last column. *)
Definition set_column (name : string) (vals : list Cell)
    (cols : list (string * list Cell)) : list (string * list Cell) :=
  if mem name (column_names cols) then
    map (fun cv => if String.eqb (fst cv) name then (fst cv, vals) else cv) cols
  else (cols ++ [(name, vals)])%list.

Definition setitem_table (t : ResultTable) (name : string) (series : Series)
  : res ResultTable :=
  let t1 := ensure_valid_index t series in
  (let? vals := reindex_for_setitem series (rindex t1) in
   Done {| rindex := rindex t1;
           rcolumns := set_column name vals (rcolumns t1) |})%res.

(** [new_results[name] = series], in place on the table at [r]. *)
Definition setitem (r : loc) (name : string) (series : Series) : M unit :=
  t <- read_results r ;;
  t' <- lift (setitem_table t name series) ;;
  write r (OResults t').

(** [frame.copy(deep=True)]: a new table with the same contents. *)
Definition copy_deep (r : loc) : M loc :=
  t <- read_results r ;;
  alloc (OResults t).

(** ** The class *)

(** [ReturnMetrics.__init__]: returns the new instance. *)
Definition __init__ (data_ : loc) (annualization_ : Z)
    (results_ : option loc) : M loc :=
  d <- read_input data_ ;;
  r <- match results_ with
       | Some r0 => copy_deep r0
       | None => alloc (OResults {| rindex := column_names (tcolumns d);
                                    rcolumns := [] |})
       end ;;
  alloc (OMetrics {| data := data_;
                     annualization := annualization_;
                     results := r;
                     _index_type := tkind d |}).

(** The property [df]: a deep copy of the result table. *)
Definition df (self : loc) : M loc :=
  m <- read_metrics self ;;
  copy_deep (results m).

Definition _with_column (self : loc) (name : string) (series : Series)
  : M loc :=
  m <- read_metrics self ;;
  new_results <- copy_deep (results m) ;;
  setitem new_results name series ;;;
  __init__ (data m) (annualization m) (Some new_results).

(** The [for name, series in new_series.items()] loop. *)
Fixpoint setitems (r : loc) (new_series : list (string * Series)) : M unit :=
  match new_series with
  | [] => ret tt
  | (name, series) :: rest => setitem r name series ;;; setitems r rest
  end.

Definition _with_columns (self : loc) (new_series : list (string * Series))
  : M loc :=
  m <- read_metrics self ;;
  new_results <- copy_deep (results m) ;;
  setitems new_results new_series ;;;
  __init__ (data m) (annualization m) (Some new_results).

(** *** Statistic methods that need no engine parameter *)

(** [self.data.mean() * self.annualization]. *)
Definition mean_series (d : InputTable) (k : Z) : Series :=
  map (fun cv => (fst cv, cell_scale (col_mean (snd cv)) (inject_Z k)))
      (tcolumns d).

Definition mean (self : loc) (name : string) : M loc :=
  m <- read_metrics self ;;
  d <- read_input (data m) ;;
  _with_column self name (mean_series d (annualization m)).

(** [self.data.quantile(q)]: the engine rejects [q] outside [0, 1]. *)
Definition df_quantile (d : InputTable) (q : Q) : res Series :=
  if Qle_bool 0 q && Qle_bool q 1 then
    Done (map (fun cv => (fst cv, col_quantile q (snd cv))) (tcolumns d))
  else Fail (ValueError "percentiles should all be in the interval [0, 1]").

Definition VaR (self : loc) (quantile : Q) (name : string) : M loc :=
  m <- read_metrics self ;;
  d <- read_input (data m) ;;
  var <- lift (df_quantile d quantile) ;;
  _with_column self name var.

(** [self.data.loc[self.data <= self.data.quantile(quantile)].mean()]:
    the comparison of the table with the quantile series is a boolean
    table, and [.loc] rejects a key of two dimensions, so the mean is never
    taken. *)
Definition CVaR (self : loc) (quantile : Q) (name : string) : M loc :=
  m <- read_metrics self ;;
  d <- read_input (data m) ;;
  threshold <- lift (df_quantile d quantile) ;;
  raise (ValueError "Cannot index with multidimensional key").

Definition max_drawdown (self : loc) (name : string) (details : bool)
    (data_type : string) : M loc :=
  if String.eqb data_type "prices" then
    raise (NotImplementedError
             "max_drawdown with data_type='prices' is not implemented yet.")
  else
    m <- read_metrics self ;;
    d <- read_input (data m) ;;
    new_data <- lift (max_drawdown_data d (_index_type m) name details) ;;
    _with_columns self new_data.

Definition tail_risk (self : loc) (quantile : Q) : M loc :=
  a <- VaR self quantile "VaR" ;;
  CVaR a quantile "CVaR".

(** *** Attribute access *)

Definition _proxy : list string :=
  ["head"; "tail"; "shape"; "columns"; "index"; "dtypes"; "T"; "info";
   "describe"; "to_csv"; "to_excel"; "to_dict"; "to_json"; "to_numpy"].

(** The names bound by [__init__] and by the class body; normal lookup
    finds these (and the double-underscore names of [object]) without
    calling [__getattr__]. *)
Definition own_attributes : list string :=
  ["data"; "annualization"; "results"; "_index_type";
   "_proxy"; "__init__"; "__getattr__"; "__dir__"; "df";
   "_with_column"; "_with_columns"; "mean"; "std"; "skew"; "kurtosis";
   "VaR"; "CVaR"; "sharpe"; "max_drawdown"; "basic_stats"; "tail_risk"].

(** The attributes of the engine's table class whose name starts with
    [_repr_]. *)
Definition dataframe_repr_attrs : list string :=
  ["_repr_html_"; "_repr_latex_"; "_repr_data_resource_";
   "_repr_fits_horizontal_"; "_repr_fits_vertical_"].

(** [hasattr(self.results, name)] for a name that starts with [_repr_]: an
    attribute of the class, or a column of the table. *)
Definition hasattr_results (t : ResultTable) (name : string) : bool :=
  mem name dataframe_repr_attrs || mem name (column_names (rcolumns t)).

(** [getattr(self.results, name)]: attribute [attr] of the table at
    [target]. *)
Inductive attr_value :=
  | Forwarded (target : loc) (attr : string).

Definition type_name : string := "ReturnMetrics".

Definition unknown_attribute_message (name : string) : string :=
  "'" ++ type_name ++ "' has no attribute '" ++ name
      ++ "'. Use `.df` for full DataFrame access.".

Definition __getattr__ (self : loc) (name : string) : M attr_value :=
  m <- read_metrics self ;;
  t <- read_results (results m) ;;
  if mem name _proxy then ret (Forwarded (results m) name)
  else if String.prefix "_repr_" name && hasattr_results t name then
    ret (Forwarded (results m) name)
  else raise (AttributeError (unknown_attribute_message name)).

(** *** Statistic methods over the engine's square root and moments *)

Section Engine.

(** [x ** 0.5] and [sqrt] on non-negative numbers. *)
Variable sqrtq : Q -> Q.
(** [Series.skew()] and [Series.kurtosis()]. *)
Variable col_skew col_kurtosis : list Q -> Cell.

(** [Series.std()]: the square root of the sample variance. *)
Definition col_std (xs : list Q) : Cell :=
  match col_var xs with
  | Some v => CNum (sqrtq v)
  | None => CNaN
  end.

(** [self.annualization ** 0.5]. *)
Definition pow_half (k : Z) : Q := sqrtq (inject_Z k).

(** [self.data.std() * (self.annualization**0.5)]. *)
Definition std_series (d : InputTable) (k : Z) : Series :=
  map (fun cv => (fst cv, cell_scale (col_std (snd cv)) (pow_half k)))
      (tcolumns d).

Definition std (self : loc) (name : string) : M loc :=
  m <- read_metrics self ;;
  d <- read_input (data m) ;;
  _with_column self name (std_series d (annualization m)).

Definition skew (self : loc) (name : string) : M loc :=
  m <- read_metrics self ;;
  d <- read_input (data m) ;;
  _with_column self name
    (map (fun cv => (fst cv, col_skew (snd cv))) (tcolumns d)).

Definition kurtosis (self : loc) (name : string) : M loc :=
  m <- read_metrics self ;;
  d <- read_input (data m) ;;
  _with_column self name
    (map (fun cv => (fst cv, col_kurtosis (snd cv))) (tcolumns d)).

(** [excess_return / self.data.std() * (self.annualization**0.5)] with
    [excess_return = self.data.mean() - risk_free_rate / self.annualization]. *)
Definition sharpe_series (d : InputTable) (k : Z) (risk_free_rate : Q)
  : Series :=
  map (fun cv =>
         let excess_return :=
           cell_sub (col_mean (snd cv)) (risk_free_rate / inject_Z k) in
         (fst cv,
          cell_scale (cell_div excess_return (col_std (snd cv)))
                     (pow_half k)))
      (tcolumns d).

(** Dividing the risk-free rate by an annualization of [0] raises. *)
Definition sharpe (self : loc) (risk_free_rate : Q) (name : string)
  : M loc :=
  m <- read_metrics self ;;
  d <- read_input (data m) ;;
  if (annualization m =? 0)%Z then
    raise (ZeroDivisionError "float division by zero")
  else _with_column self name
         (sharpe_series d (annualization m) risk_free_rate).

Definition basic_stats (self : loc) : M loc :=
  a <- mean self "mean" ;;
  b <- std a "std" ;;
  sharpe b 0 "sharpe".

(** A call of one statistic method, with its arguments. *)
Inductive stat_call :=
  | Mean (name : string)
  | Std (name : string)
  | Skew (name : string)
  | Kurtosis (name : string)
  | VaR_ (quantile : Q) (name : string)
  | CVaR_ (quantile : Q) (name : string)
  | Sharpe (risk_free_rate : Q) (name : string)
  | MaxDrawdown (name : string) (details : bool) (data_type : string)
  | BasicStats
  | TailRisk (quantile : Q).

Definition call (self : loc) (c : stat_call) : M loc :=
  match c with
  | Mean name => mean self name
  | Std name => std self name
  | Skew name => skew self name
  | Kurtosis name => kurtosis self name
  | VaR_ q name => VaR self q name
  | CVaR_ q name => CVaR self q name
  | Sharpe rf name => sharpe self rf name
  | MaxDrawdown name details data_type =>
      max_drawdown self name details data_type
  | BasicStats => basic_stats self
  | TailRisk q => tail_risk self q
  end.

(** The column names a call assigns. *)
Definition written (c : stat_call) : list string :=
  match c with
  | Mean name | Std name | Skew name | Kurtosis name
  | VaR_ _ name | CVaR_ _ name | Sharpe _ name => [name]
  | MaxDrawdown name details _ =>
      if details then
        [name; name ++ "_peak_date"; name ++ "_trough_date";
         name ++ "_recovery_date"]
      else [name]
  | BasicStats => ["mean"; "std"; "sharpe"]
  | TailRisk _ => ["VaR"; "CVaR"]
  end.

End Engine.

(** ** Views of the store used in the statements *)

(** The accumulator at [self], with its input table and result table. *)
Definition acc_at (h : heap) (self : loc) (m : ReturnMetrics)
    (d : InputTable) (t : ResultTable) : Prop :=
  h !! self = Some (OMetrics m) /\
  h !! data m = Some (OInput d) /\
  h !! results m = Some (OResults t).

(** The store an outcome leaves behind. *)
Definition final {A} (o : outcome A) : heap :=
  match o with
  | Return _ h => h
  | Raise _ h => h
  end.

(** The accumulator a successful derivation allocates on top of [h]. *)
Definition derived (h : heap) (m : ReturnMetrics) (d : InputTable)
    (t' : ResultTable) : list object :=
  [OResults t'; OResults t';
   OMetrics {| data := data m;
               annualization := annualization m;
               results := S (length h);
               _index_type := tkind d |}].

(** The loop of [_with_columns] on the table itself. *)
Fixpoint setitems_table (t : ResultTable) (new_series : list (string * Series))
  : res ResultTable :=
  match new_series with
  | [] => Done t
  | (name, series) :: rest =>
      (let? t' := setitem_table t name series in
       setitems_table t' rest)%res
  end.

(** The effect of a call on the result table alone: the table the derived
    accumulator holds, or the exception the call raises. *)
Definition call_table (sqrtq : Q -> Q) (col_skew col_kurtosis : list Q -> Cell)
    (c : stat_call) (d : InputTable) (m : ReturnMetrics) (t : ResultTable)
  : res ResultTable :=
  let k := annualization m in
  let multidimensional :=
    ValueError "Cannot index with multidimensional key" in
  let sharpe_table t0 rf name :=
    if (k =? 0)%Z then Fail (ZeroDivisionError "float division by zero")
    else setitem_table t0 name (sharpe_series sqrtq d k rf) in
  match c with
  | Mean name => setitem_table t name (mean_series d k)
  | Std name => setitem_table t name (std_series sqrtq d k)
  | Skew name =>
      setitem_table t name
        (map (fun cv => (fst cv, col_skew (snd cv))) (tcolumns d))
  | Kurtosis name =>
      setitem_table t name
        (map (fun cv => (fst cv, col_kurtosis (snd cv))) (tcolumns d))
  | VaR_ q name =>
      (let? var := df_quantile d q in setitem_table t name var)%res
  | CVaR_ q name =>
      (let? threshold := df_quantile d q in Fail multidimensional)%res
  | Sharpe rf name => sharpe_table t rf name
  | MaxDrawdown name details data_type =>
      if String.eqb data_type "prices" then
        Fail (NotImplementedError
                "max_drawdown with data_type='prices' is not implemented yet.")
      else
        (let? new_data := max_drawdown_data d (_index_type m) name details in
         setitems_table t new_data)%res
  | BasicStats =>
      (let? t1 := setitem_table t "mean" (mean_series d k) in
       let? t2 := setitem_table t1 "std" (std_series sqrtq d k) in
       sharpe_table t2 0 "sharpe")%res
  | TailRisk q =>
      (let? t1 := (let? var := df_quantile d q in
                   setitem_table t "VaR" var) in
       let? threshold := df_quantile d q in
       Fail multidimensional)%res
  end.

(** The column names of [t'] are those of [t], in the same positions,
    followed by distinct names from [W] that [t] did not have. *)
Definition names_step (W : list string) (t t' : ResultTable) : Prop :=
  exists extra,
    column_names (rcolumns t') = (column_names (rcolumns t) ++ extra)%list /\
    NoDup extra /\
    forall n, In n extra -> In n W /\ ~ In n (column_names (rcolumns t)).

(** The rows of [t'] are those of [t], and every column whose name is not
    in [W] is the same in both. *)
Definition keep_step (W : list string) (t t' : ResultTable) : Prop :=
  rindex t' = rindex t /\
  forall n, ~ In n W -> assoc n (rcolumns t') = assoc n (rcolumns t).

(** A series computed from the input table [d]: one entry per asset. *)
Definition aligned (d : InputTable) (s : Series) : Prop :=
  map fst s = column_names (tcolumns d).

(** What a call leaves in the store, against its effect [r] on the table:
    on success the derived accumulator sits on top of the old store (and of
    the intermediate objects [mid] of a chained call); on failure the old
    store is still a prefix of the new one. *)
Definition call_post (h : heap) (m : ReturnMetrics) (d : InputTable)
    (r : res ResultTable) (o : outcome loc) : Prop :=
  match o with
  | Return self' h' =>
      exists t' mid,
        r = Done t' /\
        self' = S (S (length (h ++ mid)%list)) /\
        h' = ((h ++ mid) ++ derived (h ++ mid)%list m d t')%list
  | Raise e h' => r = Fail e /\ exists k, h' = (h ++ k)%list
  end.

(** Number of columns called [x]. *)
Definition occurrences (x : string) (names : list string) : nat :=
  length (List.filter (String.eqb x) names).

(** ** Concrete inputs *)

(** A square root that is exact on squares of rationals, to run the
    section's definitions on examples. *)
Definition isqrt_q (q : Q) : Q :=
  inject_Z (Z.sqrt (Qnum (Qred q))) / inject_Z (Z.sqrt (Zpos (Qden (Qred q)))).

(** Moments are not needed by the examples. *)
Definition no_moment (xs : list Q) : Cell := CNaN.

(** One asset [a] with the returns [1], [3] and [5] at the steps [0], [1]
    and [2]: the mean is [3], the sample variance [4]. *)
Definition example_table : InputTable :=
  {| tkind := IntIndex; tindex := [0; 1; 2]%Z;
     tcolumns := [("a", [1; 3; 5])] |}.

(** The store after [ReturnMetrics(example_table, annualization=4)]: the
    accumulator is at [2]. *)
Definition example_heap : heap :=
  final (__init__ 0 4 None [OInput example_table]).

(** The store after [.mean("x")] on that accumulator: the derived
    accumulator is at [5] and its column [x] holds [12]. *)
Definition example_heap_x : heap := final (mean 2 "x" example_heap).

(** The accumulator at [5] in [example_heap_x] and its result table. *)
Definition example_acc_x : ReturnMetrics :=
  {| data := 0; annualization := 4; results := 4; _index_type := IntIndex |}.

Definition example_results_x : ResultTable :=
  Eval vm_compute in
    match example_heap_x !! 4%nat with
    | Some (OResults t) => t
    | _ => {| rindex := []; rcolumns := [] |}
    end.

(** The store after [.VaR(0, "x")] on the accumulator at [5]: the derived
    accumulator is at [8] and its column [x] holds the smallest return. *)
Definition example_heap_var : heap :=
  Eval vm_compute in final (VaR 5 0 "x" example_heap_x).

(** The accumulator at [8] in [example_heap_var] and its result table. *)
Definition example_acc_var : ReturnMetrics :=
  {| data := 0; annualization := 4; results := 7; _index_type := IntIndex |}.

Definition example_results_var : ResultTable :=
  Eval vm_compute in
    match example_heap_var !! 7%nat with
    | Some (OResults t) => t
    | _ => {| rindex := []; rcolumns := [] |}
    end.

(** The accumulator at [2] in [example_heap] and its empty result table. *)
Definition example_acc : ReturnMetrics :=
  {| data := 0; annualization := 4; results := 1; _index_type := IntIndex |}.

Definition example_results : ResultTable :=
  {| rindex := ["a"]; rcolumns := [] |}.

(** The cell of column [col] in the row of [asset]. *)
Fixpoint row_of (asset : string) (rows : list string) : option nat :=
  match rows with
  | [] => None
  | r :: rest =>
      if String.eqb r asset then Some 0%nat else option_map S (row_of asset rest)
  end.

Definition cell_at (t : ResultTable) (col asset : string) : option Cell :=
  match assoc col (rcolumns t), row_of asset (rindex t) with
  | Some vals, Some i => nth_error vals i
  | _, _ => None
  end.



(** The drawdown series of one column of returns. *)
Definition drawdown_column (returns : list Q) : list Cell :=
  drawdown_of (cumulative_of returns) (cummax (cumulative_of returns)).


(** One asset with the returns [0.1], [0.2] and [-0.5]. *)
Definition positive_wealth_table : InputTable :=
  {| tkind := IntIndex; tindex := [0; 1; 2]%Z;
     tcolumns := [("a", [0.1; 0.2; -0.5])] |}.

(** The default index of the engine: the positions [0 .. n-1]. *)
Definition range_index (n : nat) : list Z := map Z.of_nat (seq 0 n).

(** The indexes the statements about dates cover: the default integer
    index, or distinct labels that are not integers. *)
Definition index_ok (kind : IndexKind) (index : list Z) : Prop :=
  match kind with
  | IntIndex => index = range_index (length index)
  | LabelIndex => NoDup index
  end.


(** The input tables the statements about dates cover: distinct asset
    names, an index as in [index_ok], one return per time step in every
    column. *)
Definition wf_input (d : InputTable) : Prop :=
  NoDup (column_names (tcolumns d)) /\
  index_ok (tkind d) (tindex d) /\
  forall col returns,
    In (col, returns) (tcolumns d) -> length returns = length (tindex d).



Definition tie_acc : ReturnMetrics :=
  {| data := 0; annualization := 1; results := 1; _index_type := IntIndex |}.

Definition tie_results : ResultTable := {| rindex := ["a"]; rcolumns := [] |}.


(** The store after [ReturnMetrics(positive_wealth_table)]: the
    accumulator is at [2]. *)
Definition positive_heap : heap :=
  final (__init__ 0 1 None [OInput positive_wealth_table]).



(** An accumulator as the interface builds it: the rows of its result table
    are the assets of its input table, and no two columns share a name. *)
Definition wf_acc (h : heap) (self : loc) : Prop :=
  exists m d t,
    acc_at h self m d t /\
    rindex t = column_names (tcolumns d) /\
    NoDup (column_names (rcolumns t)).

(** ** The arithmetic of the class in binary64

    The float series that [mean], [std] and [max_drawdown] compute, on
    hardware floats, with the rounding, the overflow and the NaN of the
    engine: a column of the input table is a list of floats here.  The
    reductions [DataFrame.mean] and [DataFrame.std] and the power
    [k ** 0.5] of the interpreter are parameters; the accumulations
    [cumprod] and [cummax], the reductions [min], [idxmin] and [idxmax]
    and the arithmetic written in the class are modelled. *)
Module Binary64.

Import PrimFloat.

(** The engine masks missing values before it accumulates or reduces:
    a NaN is replaced by a neutral value, and put back afterwards. *)
Definition fill (v x : float) : float := if is_nan x then v else x.

Fixpoint mask_back (orig res : list float) : list float :=
  match orig, res with
  | o :: os, r :: rs => (if is_nan o then nan else r) :: mask_back os rs
  | _, _ => []
  end.

(** [np.cumprod]: the running product, left to right. *)
Fixpoint cumprod_from (acc : float) (xs : list float) : list float :=
  match xs with
  | [] => []
  | x :: r => (acc * x)%float :: cumprod_from (acc * x)%float r
  end.

Definition np_cumprod (xs : list float) : list float :=
  match xs with
  | [] => []
  | x :: r => x :: cumprod_from x r
  end.

(** [Series.cumprod()]: a NaN counts as [1] and stays NaN. *)
Definition cumprod (xs : list float) : list float :=
  mask_back xs (np_cumprod (map (fill 1%float) xs)).

(** [np.maximum(a, b)]: [a] unless [b] is greater. *)
Definition np_maximum (a b : float) : float :=
  if (b <=? a)%float || is_nan a then a else b.

Fixpoint maximum_from (acc : float) (xs : list float) : list float :=
  match xs with
  | [] => []
  | x :: r => np_maximum acc x :: maximum_from (np_maximum acc x) r
  end.

Definition maximum_accumulate (xs : list float) : list float :=
  match xs with
  | [] => []
  | x :: r => x :: maximum_from x r
  end.

(** [Series.cummax()]: a NaN counts as minus infinity and stays NaN. *)
Definition cummax (xs : list float) : list float :=
  mask_back xs (maximum_accumulate (map (fill neg_infinity) xs)).

(** [(1 + self.data).cumprod()] for one column. *)
Definition cumulative_of (returns : list float) : list float :=
  cumprod (map (fun r => (1 + r)%float) returns).

(** [(cumulative - peak) / peak], element by element. *)
Fixpoint drawdown_of (cumulative peak : list float) : list float :=
  match cumulative, peak with
  | w :: ws, p :: ps => ((w - p) / p)%float :: drawdown_of ws ps
  | _, _ => []
  end.

Definition drawdown_column (returns : list float) : list float :=
  drawdown_of (cumulative_of returns) (cummax (cumulative_of returns)).

(** [np.minimum(a, b)]: [a] unless [b] is smaller. *)
Definition np_minimum (a b : float) : float :=
  if (a <=? b)%float || is_nan a then a else b.

(** [Series.min()]: NaN is skipped; NaN when nothing is left. *)
Definition cells_min (xs : list float) : float :=
  if forallb is_nan xs then nan
  else
    match map (fill infinity) xs with
    | [] => nan
    | x :: r => fold_left np_minimum r x
    end.

(** [drawdown.min()] for one column: the statistic. *)
Definition statistic (returns : list float) : float :=
  cells_min (drawdown_column returns).

(** [np.argmin], [np.argmax]: position of the first minimum, of the first
    maximum. *)
Fixpoint argmin_from (best : nat) (bv : float) (i : nat) (xs : list float)
  : nat :=
  match xs with
  | [] => best
  | x :: r =>
      if (x <? bv)%float then argmin_from i x (S i) r
      else argmin_from best bv (S i) r
  end.

Definition np_argmin (xs : list float) : option nat :=
  match xs with
  | [] => None
  | x :: r => Some (argmin_from 0%nat x 1%nat r)
  end.

Fixpoint argmax_from (best : nat) (bv : float) (i : nat) (xs : list float)
  : nat :=
  match xs with
  | [] => best
  | x :: r =>
      if (bv <? x)%float then argmax_from i x (S i) r
      else argmax_from best bv (S i) r
  end.

Definition np_argmax (xs : list float) : option nat :=
  match xs with
  | [] => None
  | x :: r => Some (argmax_from 0%nat x 1%nat r)
  end.

(** [Series.idxmin()]: label of the first minimum, NaN skipped. *)
Definition idxmin (s : TimeSeries float) : res Z :=
  match s with
  | [] => Fail (ValueError "attempt to get argmin of an empty sequence")
  | _ =>
      if forallb is_nan (map snd s) then
        Fail (ValueError "Encountered all NA values")
      else
        match np_argmin (map (fill infinity) (map snd s)) with
        | Some p =>
            of_option (nth_error (map fst s) p)
              (ValueError "attempt to get argmin of an empty sequence")
        | None =>
            Fail (ValueError "attempt to get argmin of an empty sequence")
        end
  end.

(** [Series.idxmax()]: label of the first maximum, NaN skipped. *)
Definition idxmax (s : TimeSeries float) : res Z :=
  match s with
  | [] => Fail (ValueError "attempt to get argmax of an empty sequence")
  | _ =>
      if forallb is_nan (map snd s) then
        Fail (ValueError "Encountered all NA values")
      else
        match np_argmax (map (fill neg_infinity) (map snd s)) with
        | Some p =>
            of_option (nth_error (map fst s) p)
              (ValueError "attempt to get argmax of an empty sequence")
        | None =>
            Fail (ValueError "attempt to get argmax of an empty sequence")
        end
  end.

(** [Series.first_valid_index()]: the first label whose value is not
    NaN. *)
Fixpoint first_valid_index (s : TimeSeries float) : option Z :=
  match s with
  | [] => None
  | (l, v) :: r => if is_nan v then first_valid_index r else Some l
  end.

(** The body of the [for col in self.data.columns] loop, for one column:
    peak date, trough date and recovery date. *)
Definition details_of (kind : IndexKind) (index : list Z)
    (returns : list float) : res (Z * Z * option Z) :=
  let cumulative := cumulative_of returns in
  let peak := cummax cumulative in
  let drawdown := drawdown_of cumulative peak in
  (let? trough_date := idxmin (combine index drawdown) in
   let? before := slice_to kind trough_date (combine index cumulative) in
   let? peak_date := idxmax before in
   let? after := slice_from kind trough_date (combine index cumulative) in
   let? peak_value := getitem peak_date (combine index peak) in
   let mask := map (fun lv => (fst lv, (peak_value <=? snd lv)%float))
                   (combine index cumulative) in
   Done (peak_date, trough_date, first_valid_index (loc_mask mask after)))%res.

(** *** Annualization *)

(** [float(k)] for an integer that the engine's 64-bit integers hold. *)
Definition float_of_int (k : Z) : float :=
  if (k <? 0)%Z then (- of_uint63 (Uint63.of_Z (- k)))%float
  else of_uint63 (Uint63.of_Z k).

Section Annualization.

(** [DataFrame.mean()] and [DataFrame.std()] for one column, and
    [k ** 0.5] for an integer [k] that is not negative: the power of the
    C library on [float(k)] and [0.5]. *)
Variable col_mean col_std : list float -> float.
Variable pow_half : Z -> float.

(** [self.data.mean() * self.annualization]. *)
Definition mean_series (columns : list (string * list float)) (k : Z)
  : list (string * float) :=
  map (fun cv => (fst cv, (col_mean (snd cv) * float_of_int k)%float))
      columns.

(** [self.data.std() * (self.annualization**0.5)]. *)
Definition std_series (columns : list (string * list float)) (k : Z)
  : list (string * float) :=
  map (fun cv => (fst cv, (col_std (snd cv) * pow_half k)%float)) columns.

End Annualization.

End Binary64.

(** ** Chained calls and the assignments of a call *)

(** Fluent chaining [acc.m1(...).m2(...) ...]: each call runs on the
    accumulator the previous one returned. *)
Fixpoint chain (sqrtq : Q -> Q) (col_skew col_kurtosis : list Q -> Cell)
    (self : loc) (cs : list stat_call) : M loc :=
  match cs with
  | [] => ret self
  | c :: rest =>
      a <- call sqrtq col_skew col_kurtosis self c ;;
      chain sqrtq col_skew col_kurtosis a rest
  end.

(** The columns a call assigns, in the order it assigns them, with the
    series it computes from the input table; or the exception the
    computation raises before anything is assigned. *)
Definition assignments (sqrtq : Q -> Q) (col_skew col_kurtosis : list Q -> Cell)
    (c : stat_call) (d : InputTable) (m : ReturnMetrics)
  : res (list (string * Series)) :=
  let k := annualization m in
  match c with
  | Mean name => Done [(name, mean_series d k)]
  | Std name => Done [(name, std_series sqrtq d k)]
  | Skew name =>
      Done [(name, map (fun cv => (fst cv, col_skew (snd cv))) (tcolumns d))]
  | Kurtosis name =>
      Done [(name, map (fun cv => (fst cv, col_kurtosis (snd cv))) (tcolumns d))]
  | VaR_ q name => (let? var := df_quantile d q in Done [(name, var)])%res
  | CVaR_ q name =>
      Fail (ValueError "Cannot index with multidimensional key")
  | Sharpe rf name =>
      if (k =? 0)%Z then Fail (ZeroDivisionError "float division by zero")
      else Done [(name, sharpe_series sqrtq d k rf)]
  | MaxDrawdown name details data_type =>
      if String.eqb data_type "prices" then
        Fail (NotImplementedError
                "max_drawdown with data_type='prices' is not implemented yet.")
      else max_drawdown_data d (_index_type m) name details
  | BasicStats =>
      if (k =? 0)%Z then Fail (ZeroDivisionError "float division by zero")
      else Done [("mean", mean_series d k);
                 ("std", std_series sqrtq d k);
                 ("sharpe", sharpe_series sqrtq d k 0)]
  | TailRisk q =>
      Fail (ValueError "Cannot index with multidimensional key")
  end.

(** The series last assigned to column [n] by a list of assignments. *)
Fixpoint last_assigned (n : string) (assigns : list (string * Series))
  : option Series :=
  match assigns with
  | [] => None
  | (k, s) :: rest =>
      match last_assigned n rest with
      | Some s' => Some s'
      | None => if String.eqb k n then Some s else None
      end
  end.

(** A result table with one cell per row in every column. *)
Definition rectangular (t : ResultTable) : Prop :=
  forall n col, In (n, col) (rcolumns t) -> length col = length (rindex t).

(** The columns of a table after a list of assignments of series that have
    one entry per row. *)
Definition assign_all (assigns : list (string * Series))
    (cols : list (string * list Cell)) : list (string * list Cell) :=
  fold_left (fun acc ns => set_column (fst ns) (map snd (snd ns)) acc)
            assigns cols.

(** Stores reached from [example_heap] and used to run the statements on
    the example: after [.std("s")] on the accumulator at [5] of
    [example_heap_var]; after [.mean("m")], then [.VaR(0, "v")]; after
    [.VaR(0, "v")], then [.mean("m")]; and after the whole chain
    [ReturnMetrics(example_table, 4).mean("m").std("s")]. *)
Definition example_heap_std : heap :=
  Eval vm_compute in final (std isqrt_q 5 "s" example_heap_var).

Definition example_heap_m : heap :=
  Eval vm_compute in final (mean 2 "m" example_heap).

Definition example_heap_m_v : heap :=
  Eval vm_compute in final (VaR 5 0 "v" example_heap_m).

Definition example_heap_v : heap :=
  Eval vm_compute in final (VaR 2 0 "v" example_heap).

Definition example_heap_v_m : heap :=
  Eval vm_compute in final (mean 5 "m" example_heap_v).

Definition example_chain_heap : heap :=
  Eval vm_compute in
    final ((a <- __init__ 0 4 None ;;
            chain isqrt_q no_moment no_moment a [Mean "m"; Std "s"])
             [OInput example_table]).

(** One asset that falls and recovers, with the returns [0.1], [-0.2] and
    [0.5] at the steps [0], [1], [2]; the store after
    [ReturnMetrics(recovery_table)], with the accumulator at [2]; and the
    store after [.max_drawdown("dd", details=True)] on it, with the derived
    accumulator at [5]. *)
Definition recovery_table : InputTable :=
  {| tkind := IntIndex; tindex := [0; 1; 2]%Z;
     tcolumns := [("a", [0.1; -0.2; 0.5])] |}.

Definition recovery_heap : heap :=
  final (__init__ 0 1 None [OInput recovery_table]).

Definition recovery_heap_dd : heap :=
  Eval vm_compute in final (max_drawdown 2 "dd" true "returns" recovery_heap).

(** ** Listing attributes: [__dir__] *)

(** [sorted] on names: ascending in the order of their characters. *)
Fixpoint insert_name (x : string) (l : list string) : list string :=
  match l with
  | [] => [x]
  | y :: r => if String.leb x y then x :: l else y :: insert_name x r
  end.

Fixpoint py_sorted (l : list string) : list string :=
  match l with
  | [] => []
  | x :: r => insert_name x (py_sorted r)
  end.

(** [self.__dict__.keys()]: the four names [__init__] binds. *)
Definition instance_dict : list string :=
  ["data"; "annualization"; "results"; "_index_type"].

Section Dir.

(** [dir(type(self))] and [dir(self.results)] are the interpreter's and the
    engine's. *)
Variable class_dir : list string.
Variable results_dir : ResultTable -> list string.

(** The three sets are joined and listed in ascending order, each name
    once. *)
Definition __dir__ (self : loc) : M (list string) :=
  m <- read_metrics self ;;
  t <- read_results (results m) ;;
  let base := (class_dir ++ instance_dict)%list in
  let reprs := List.filter (String.prefix "_repr_") (results_dir t) in
  ret (py_sorted (remove_dups (base ++ _proxy ++ reprs)%list)).

End Dir.

(** A listing of the class and of a table to run [__dir__] on: the names
    of the class body, and the [_repr_] attributes and the columns of the
    table. *)
Definition example_class_dir : list string :=
  ["__init__"; "__getattr__"; "__dir__"; "_proxy"; "df"; "_with_column";
   "_with_columns"; "mean"; "std"; "skew"; "kurtosis"; "VaR"; "CVaR";
   "sharpe"; "max_drawdown"; "basic_stats"; "tail_risk"].

Definition example_results_dir (t : ResultTable) : list string :=
  (dataframe_repr_attrs ++ ["head"; "shape"] ++ column_names (rcolumns t))%list.

(** One asset with a single observation, and the store after
    [ReturnMetrics(single_table)]: the accumulator is at [2]. *)
Definition single_table : InputTable :=
  {| tkind := IntIndex; tindex := [0]%Z; tcolumns := [("a", [0.1])] |}.

Definition single_heap : heap :=
  final (__init__ 0 1 None [OInput single_table]).

(** A seed table whose rows are not the assets of the input table: the
    store holds [example_table] at [0], a table with the rows [b] and [a]
    at [1], and the accumulator [ReturnMetrics(example_table, 4, seed)] at
    [3], with its own copy of the seed at [2]. *)
Definition seed_rows_table : ResultTable :=
  {| rindex := ["b"; "a"]; rcolumns := [] |}.

Definition seed_rows_heap : heap :=
  Eval vm_compute in
    final (__init__ 0 4 (Some 1%nat)
             [OInput example_table; OResults seed_rows_table]).

Definition seed_rows_acc : ReturnMetrics :=
  {| data := 0; annualization := 4; results := 2; _index_type := IntIndex |}.

(** One asset that only gains, under time labels: the
    returns [0.1] and [0.2] at the labels [10] and [20]; and the store
    after [ReturnMetrics(labelled_table)], with the accumulator at [2]. *)
Definition labelled_table : InputTable :=
  {| tkind := LabelIndex; tindex := [10; 20]%Z;
     tcolumns := [("a", [0.1; 0.2])] |}.

Definition labelled_heap : heap :=
  final (__init__ 0 1 None [OInput labelled_table]).

Definition labelled_acc : ReturnMetrics :=
  {| data := 0; annualization := 1; results := 1;
     _index_type := LabelIndex |}.

(** A seed table with two columns called [x]; the store holds
    [example_table] at [0], the seed at [1], and the accumulator
    [ReturnMetrics(example_table, 4, seed)] at [3], with its own copy of the
    seed at [2]. *)
Definition two_x_table : ResultTable :=
  {| rindex := ["a"]; rcolumns := [("x", [CNum 1]); ("x", [CNum 2])] |}.

Definition two_x_heap : heap :=
  Eval vm_compute in
    final (__init__ 0 4 (Some 1%nat)
             [OInput example_table; OResults two_x_table]).

(** *** Signs of floats

    Classes of floats by sign, on the specification side of the binary64
    primitives: a positive float (finite or infinite); a float that is
    zero, negative or NaN; a float with the sign [s], or NaN. *)
Definition SFpositive (x : spec_float) : Prop :=
  match x with
  | S754_infinity false | S754_finite false _ _ => True
  | _ => False
  end.

Definition SFnot_positive (x : spec_float) : Prop :=
  match x with
  | S754_zero _ | S754_nan | S754_infinity true | S754_finite true _ _ => True
  | _ => False
  end.

Definition SFsigned (s : bool) (x : spec_float) : Prop :=
  match x with
  | S754_zero s' | S754_infinity s' | S754_finite s' _ _ => s' = s
  | S754_nan => True
  end.

(** * Properties *)

#[local] Set Warnings "-inexact-float".

(** ** The store: reads, allocation, in-place assignment *)

Lemma lookup_snoc_here (h : heap) (o : object) :
  (h ++ [o])%list !! length h = Some o.
Proof. by rewrite list_lookup_middle. Qed.

Lemma lookup_grow (h k : heap) (l : loc) (o : object) :
  h !! l = Some o -> (h ++ k)%list !! l = Some o.
Proof. intros H. rewrite lookup_app_l; [done | by eapply lookup_lt_Some]. Qed.

Lemma insert_snoc_here (h : heap) (o o' : object) :
  <[length h := o']> (h ++ [o])%list = (h ++ [o'])%list.
Proof.
  rewrite insert_app_r_alt; [| lia].
  by rewrite Nat.sub_diag.
Qed.

Lemma _with_column_eval h self m d t name series :
  acc_at h self m d t ->
  _with_column self name series h =
  match setitem_table t name series with
  | Done t' => Return (S (S (length h))) (h ++ derived h m d t')%list
  | Fail e => Raise e (h ++ [OResults t])%list
  end.
Proof.
  intros (Hself & Hdata & Hres).
  unfold _with_column, bind, read_metrics. rewrite Hself.
  unfold copy_deep, bind, read_results. rewrite Hres. unfold alloc.
  unfold setitem, bind, read_results. rewrite lookup_snoc_here.
  destruct (setitem_table t name series) as [t'|e]; simpl; [|done].
  rewrite insert_snoc_here.
  unfold __init__, bind, read_input.
  rewrite (lookup_grow _ _ _ _ Hdata).
  unfold copy_deep, bind, read_results. rewrite lookup_snoc_here.
  unfold alloc. rewrite !length_app. simpl.
  rewrite <- !app_assoc. simpl.
  unfold derived. repeat f_equal; lia.
Qed.

Lemma setitems_eval h0 t new_series :
  match setitems (length h0) new_series (h0 ++ [OResults t])%list with
  | Return _ h' =>
      exists t', setitems_table t new_series = Done t' /\
                 h' = (h0 ++ [OResults t'])%list
  | Raise e h' =>
      setitems_table t new_series = Fail e /\
      exists tp, h' = (h0 ++ [OResults tp])%list
  end.
Proof.
  revert t. induction new_series as [|[name series] rest IH]; intros t; simpl.
  - eauto.
  - unfold bind, setitem, bind, read_results. rewrite lookup_snoc_here.
    destruct (setitem_table t name series) as [t1|e]; simpl; [|eauto].
    rewrite insert_snoc_here. apply IH.
Qed.

Lemma init_eval h0 (m : ReturnMetrics) d t' :
  h0 !! data m = Some (OInput d) ->
  __init__ (data m) (annualization m) (Some (length h0))
    (h0 ++ [OResults t'])%list
  = Return (S (S (length h0))) (h0 ++ derived h0 m d t')%list.
Proof.
  intros Hdata. unfold __init__, bind, read_input.
  rewrite (lookup_grow _ _ _ _ Hdata).
  unfold copy_deep, bind, read_results. rewrite lookup_snoc_here.
  unfold alloc. rewrite !length_app. simpl.
  rewrite <- !app_assoc. simpl.
  unfold derived. repeat f_equal; lia.
Qed.

Lemma _with_columns_eval h self m d t new_series :
  acc_at h self m d t ->
  match _with_columns self new_series h with
  | Return self' h' =>
      exists t', setitems_table t new_series = Done t' /\
                 self' = S (S (length h)) /\
                 h' = (h ++ derived h m d t')%list
  | Raise e h' =>
      setitems_table t new_series = Fail e /\
      exists tp, h' = (h ++ [OResults tp])%list
  end.
Proof.
  intros (Hself & Hdata & Hres).
  unfold _with_columns, bind, read_metrics. rewrite Hself.
  unfold copy_deep, bind, read_results. rewrite Hres. unfold alloc.
  pose proof (setitems_eval h t new_series) as Hloop.
  destruct (setitems (length h) new_series (h ++ [OResults t])%list)
    as [[] h1|e h1].
  - destruct Hloop as (t' & Ht' & ->).
    rewrite (init_eval _ _ _ _ Hdata). eauto.
  - done.
Qed.

Lemma derived_acc h (m : ReturnMetrics) d t' :
  h !! data m = Some (OInput d) ->
  acc_at (h ++ derived h m d t')%list (S (S (length h)))
    {| data := data m; annualization := annualization m;
       results := S (length h); _index_type := tkind d |} d t'.
Proof.
  intros Hdata. unfold acc_at. cbn [data results]. repeat split.
  - rewrite lookup_app_r; [|lia].
    by replace (S (S (length h)) - length h)%nat with 2%nat by lia.
  - by apply lookup_grow.
  - rewrite lookup_app_r; [|lia].
    by replace (S (length h) - length h)%nat with 1%nat by lia.
Qed.

Lemma _with_column_post h self m d t name series :
  acc_at h self m d t ->
  call_post h m d (setitem_table t name series)
    (_with_column self name series h).
Proof.
  intros Hacc. rewrite (_with_column_eval _ _ _ _ _ _ _ Hacc).
  destruct (setitem_table t name series) as [t'|e]; simpl.
  - exists t', []. by rewrite !app_nil_r.
  - eauto.
Qed.

Lemma _with_columns_post h self m d t new_series :
  acc_at h self m d t ->
  call_post h m d (setitems_table t new_series)
    (_with_columns self new_series h).
Proof.
  intros Hacc. pose proof (_with_columns_eval _ _ _ _ _ new_series Hacc) as H.
  destruct (_with_columns self new_series h) as [self' h'|e h']; simpl.
  - destruct H as (t' & Ht & -> & ->). exists t', []. by rewrite !app_nil_r.
  - destruct H as (Ht & tp & ->). eauto.
Qed.

(** Chaining: a second call on the accumulator the first one returned. *)
Lemma call_post_chain h m d t1 mid r (o : outcome loc) :
  call_post ((h ++ mid) ++ derived (h ++ mid)%list m d t1)%list
    {| data := data m; annualization := annualization m;
       results := S (length (h ++ mid)%list); _index_type := tkind d |}
    d r o ->
  call_post h m d r o.
Proof.
  destruct o as [self' h'|e h']; simpl.
  - intros (t' & mid' & -> & -> & ->).
    exists t', (mid ++ derived (h ++ mid)%list m d t1 ++ mid')%list.
    rewrite !app_assoc. done.
  - intros (-> & k & ->). split; [done|].
    exists (mid ++ derived (h ++ mid)%list m d t1 ++ k)%list.
    by rewrite !app_assoc.
Qed.

(** ** Every statistic call, against its effect on the table *)

Section CallFacts.

Variable sqrtq : Q -> Q.
Variable col_skew col_kurtosis : list Q -> Cell.

Let call := call sqrtq col_skew col_kurtosis.
Let call_table := call_table sqrtq col_skew col_kurtosis.

Ltac enter Hacc :=
  let Hself := fresh "Hself" in
  let Hdata := fresh "Hdata" in
  let Hres := fresh "Hres" in
  pose proof Hacc as (Hself & Hdata & Hres);
  unfold bind at 1, read_metrics; rewrite Hself;
  unfold bind at 1, read_input; rewrite Hdata.

Lemma mean_post h self m d t name :
  acc_at h self m d t ->
  call_post h m d (setitem_table t name (mean_series d (annualization m)))
    (mean self name h).
Proof.
  intros Hacc. unfold mean. enter Hacc. by apply _with_column_post.
Qed.

Lemma std_post h self m d t name :
  acc_at h self m d t ->
  call_post h m d
    (setitem_table t name (std_series sqrtq d (annualization m)))
    (std sqrtq self name h).
Proof.
  intros Hacc. unfold std. enter Hacc. by apply _with_column_post.
Qed.

Lemma sharpe_post h self m d t rf name :
  acc_at h self m d t ->
  call_post h m d
    (if (annualization m =? 0)%Z
     then Fail (ZeroDivisionError "float division by zero")
     else setitem_table t name
            (sharpe_series sqrtq d (annualization m) rf))
    (sharpe sqrtq self rf name h).
Proof.
  intros Hacc. unfold sharpe. enter Hacc.
  destruct (annualization m =? 0)%Z.
  - simpl. split; [done|]. exists []. by rewrite app_nil_r.
  - by apply _with_column_post.
Qed.

Lemma VaR_post h self m d t q name :
  acc_at h self m d t ->
  call_post h m d
    (let? var := df_quantile d q in setitem_table t name var)%res
    (VaR self q name h).
Proof.
  intros Hacc. unfold VaR. enter Hacc.
  unfold bind at 1. destruct (df_quantile d q) as [var|e]; simpl.
  - by apply _with_column_post.
  - split; [done|]. exists []. by rewrite app_nil_r.
Qed.

Lemma CVaR_post h self m d t q name :
  acc_at h self m d t ->
  call_post h m d
    (let? threshold := df_quantile d q in
     Fail (ValueError "Cannot index with multidimensional key"))%res
    (CVaR self q name h).
Proof.
  intros Hacc. unfold CVaR. enter Hacc.
  unfold bind at 1. destruct (df_quantile d q) as [var|e]; simpl;
    (split; [done|]; exists []; by rewrite app_nil_r).
Qed.

Lemma max_drawdown_post h self m d t name details data_type :
  acc_at h self m d t ->
  call_post h m d
    (if String.eqb data_type "prices" then
       Fail (NotImplementedError
               "max_drawdown with data_type='prices' is not implemented yet.")
     else
       (let? new_data := max_drawdown_data d (_index_type m) name details in
        setitems_table t new_data)%res)
    (max_drawdown self name details data_type h).
Proof.
  intros Hacc. unfold max_drawdown.
  destruct (String.eqb data_type "prices").
  - simpl. split; [done|]. exists []. by rewrite app_nil_r.
  - enter Hacc. unfold bind at 1.
    destruct (max_drawdown_data d (_index_type m) name details)
      as [new_data|e]; simpl.
    + by apply _with_columns_post.
    + split; [done|]. exists []. by rewrite app_nil_r.
Qed.

(** The second call of a chain runs on the accumulator the first one
    returned. *)
Lemma chain_post h self m d t r1
    (first : M loc) (second : loc -> M loc)
    (r2 : ResultTable -> res ResultTable) :
  acc_at h self m d t ->
  call_post h m d r1 (first h) ->
  (forall h1 self1 m1 t1,
      acc_at h1 self1 m1 d t1 ->
      annualization m1 = annualization m ->
      call_post h1 m1 d (r2 t1) (second self1 h1)) ->
  call_post h m d (res_bind r1 r2) (bind first second h).
Proof.
  intros (_ & Hdata & _) H1 H2. unfold bind.
  destruct (first h) as [a h1|e h1]; simpl in H1.
  - destruct H1 as (t1 & mid & -> & -> & ->). simpl.
    apply (call_post_chain h m d t1 mid).
    assert (Hd : (h ++ mid)%list !! data m = Some (OInput d))
      by by apply lookup_grow.
    pose proof (derived_acc (h ++ mid)%list m d t1 Hd) as Hacc1.
    apply (H2 _ _ _ _ Hacc1). done.
  - destruct H1 as (-> & k & ->). simpl. eauto.
Qed.

Lemma call_eval h self m d t c :
  acc_at h self m d t ->
  call_post h m d (call_table c d m t) (call self c h).
Proof.
  intros Hacc. destruct c; simpl.
  - by apply mean_post.
  - by apply std_post.
  - unfold skew. enter Hacc. by apply _with_column_post.
  - unfold kurtosis. enter Hacc. by apply _with_column_post.
  - by apply VaR_post.
  - by eapply CVaR_post.
  - by apply sharpe_post.
  - by apply max_drawdown_post.
  - unfold basic_stats.
    apply (chain_post h self m d t _ _ _
             (fun t1 => (let? t2 := setitem_table t1 "std"
                                      (std_series sqrtq d (annualization m)) in
                         if (annualization m =? 0)%Z
                         then Fail (ZeroDivisionError "float division by zero")
                         else setitem_table t2 "sharpe"
                                (sharpe_series sqrtq d (annualization m) 0))%res)
             Hacc (mean_post _ _ _ _ _ _ Hacc)).
    intros h1 self1 m1 t1 Hacc1 Hk.
    apply (chain_post h1 self1 m1 d t1 _ _ _
             (fun t2 => if (annualization m =? 0)%Z
                        then Fail (ZeroDivisionError "float division by zero")
                        else setitem_table t2 "sharpe"
                               (sharpe_series sqrtq d (annualization m) 0))
             Hacc1).
    + rewrite <- Hk. by apply std_post.
    + intros h2 self2 m2 t2 Hacc2 Hk2. rewrite <- Hk, <- Hk2.
      by apply sharpe_post.
  - unfold tail_risk.
    apply (chain_post h self m d t _ _ _
             (fun t1 => (let? threshold := df_quantile d quantile in
                         Fail (ValueError
                                 "Cannot index with multidimensional key"))%res)
             Hacc).
    + by apply VaR_post.
    + intros h1 self1 m1 t1 Hacc1 _. by eapply CVaR_post.
Qed.

End CallFacts.

(** ** Column assignment on tables *)

Lemma mem_In k l : mem k l = true <-> In k l.
Proof.
  unfold mem. rewrite existsb_exists. split.
  - intros (x & Hx & Heq). apply String.eqb_eq in Heq. by subst.
  - intros H. exists k. split; [done | apply String.eqb_refl].
Qed.

Lemma mem_not_In k l : mem k l = false <-> ~ In k l.
Proof.
  rewrite <- mem_In. destruct (mem k l); split; intros; congruence.
Qed.

Lemma names_eqb_eq a b : names_eqb a b = true <-> a = b.
Proof.
  revert b. induction a as [|x a IH]; intros [|y b]; simpl; try done.
  rewrite andb_true_iff, String.eqb_eq, IH. split.
  - by intros [-> ->].
  - intros [= -> ->]. done.
Qed.

Lemma ensure_valid_index_names t series :
  column_names (rcolumns (ensure_valid_index t series))
  = column_names (rcolumns t).
Proof.
  unfold ensure_valid_index.
  destruct (rindex t); [destruct series|]; try done.
  simpl. unfold column_names. rewrite map_map. done.
Qed.

Lemma ensure_valid_index_id t series :
  (rindex t = [] -> series = []) -> ensure_valid_index t series = t.
Proof.
  unfold ensure_valid_index. intros H.
  destruct (rindex t); [|done].
  by rewrite H.
Qed.

Lemma set_column_names name vals cols :
  column_names (set_column name vals cols)
  = if mem name (column_names cols) then column_names cols
    else (column_names cols ++ [name])%list.
Proof.
  unfold set_column. destruct (mem name (column_names cols)).
  - unfold column_names. rewrite map_map. apply map_ext.
    intros [k v]. simpl. by destruct (String.eqb k name).
  - unfold column_names. by rewrite map_app.
Qed.

Lemma assoc_None {A} k (l : list (string * A)) :
  assoc k l = None <-> ~ In k (column_names l).
Proof.
  induction l as [|[k' v] l IH]; simpl; [tauto|].
  destruct (String.eqb_spec k' k) as [->|Hne].
  - split; [done | intros H; destruct H; by left].
  - rewrite IH. tauto.
Qed.

Lemma assoc_app {A} k (l1 l2 : list (string * A)) :
  assoc k (l1 ++ l2)%list
  = match assoc k l1 with Some v => Some v | None => assoc k l2 end.
Proof.
  induction l1 as [|[k' v] l1 IH]; simpl; [done|].
  by destruct (String.eqb k' k).
Qed.

Lemma assoc_set_column_same name vals cols :
  assoc name (set_column name vals cols) = Some vals.
Proof.
  unfold set_column. destruct (mem name (column_names cols)) eqn:Hmem.
  - apply mem_In in Hmem.
    induction cols as [|[k v] cols IH]; simpl in *; [done|].
    destruct (String.eqb_spec k name) as [->|Hne]; simpl.
    + by rewrite String.eqb_refl.
    + destruct (String.eqb_spec k name); [done|].
      apply IH. by destruct Hmem.
  - apply mem_not_In, assoc_None in Hmem.
    rewrite assoc_app, Hmem. simpl. by rewrite String.eqb_refl.
Qed.

Lemma assoc_set_column_other n name vals cols :
  n <> name -> assoc n (set_column name vals cols) = assoc n cols.
Proof.
  intros Hne. unfold set_column. destruct (mem name (column_names cols)).
  - induction cols as [|[k v] cols IH]; simpl; [done|].
    destruct (String.eqb_spec k name) as [->|Hk]; simpl.
    + destruct (String.eqb_spec name n); [congruence | done].
    + by destruct (String.eqb k n).
  - rewrite assoc_app. destruct (assoc n cols); [done|].
    simpl. destruct (String.eqb_spec name n); [congruence | done].
Qed.

Lemma setitem_table_names t name series t' :
  setitem_table t name series = Done t' ->
  column_names (rcolumns t')
  = if mem name (column_names (rcolumns t)) then column_names (rcolumns t)
    else (column_names (rcolumns t) ++ [name])%list.
Proof.
  unfold setitem_table.
  destruct (reindex_for_setitem series _) as [vals|e]; simpl; [|done].
  intros [= <-]. simpl.
  by rewrite set_column_names, ensure_valid_index_names.
Qed.

(** A series with one entry per row of the table is assigned as it is. *)
Lemma setitem_table_aligned t name series :
  map fst series = rindex t ->
  setitem_table t name series
  = Done {| rindex := rindex t;
            rcolumns := set_column name (map snd series) (rcolumns t) |}.
Proof.
  intros Hrows. unfold setitem_table.
  rewrite ensure_valid_index_id.
  - unfold reindex_for_setitem.
    replace (names_eqb (map fst series) (rindex t)) with true; [done|].
    symmetry. by apply names_eqb_eq.
  - intros Hnil. rewrite Hnil in Hrows. by destruct series.
Qed.

Lemma names_step_refl W t : names_step W t t.
Proof.
  exists []. split; [by rewrite app_nil_r|]. split; [apply NoDup_nil_2 | done].
Qed.

Lemma names_step_trans W1 W2 t t1 t2 :
  names_step W1 t t1 -> names_step W2 t1 t2 ->
  names_step (W1 ++ W2) t t2.
Proof.
  intros (e1 & H1 & Hnd1 & Hin1) (e2 & H2 & Hnd2 & Hin2).
  exists (e1 ++ e2)%list. split; [|split].
  - by rewrite H2, H1, app_assoc.
  - apply NoDup_app. split; [done|]. split; [|done].
    intros n Hn1%list_elem_of_In Hn2%list_elem_of_In.
    destruct (Hin2 n Hn2) as [_ Hnot]. apply Hnot.
    rewrite H1. apply in_or_app. by right.
  - intros n [Hn|Hn]%in_app_or.
    + destruct (Hin1 n Hn). split; [apply in_or_app; by left | done].
    + destruct (Hin2 n Hn) as [HW Hnot]. split; [apply in_or_app; by right|].
      intros Hold. apply Hnot. rewrite H1. apply in_or_app. by left.
Qed.

Lemma names_step_mono W W' t t' :
  (forall n, In n W -> In n W') -> names_step W t t' -> names_step W' t t'.
Proof.
  intros Hsub (e & H & Hnd & Hin). exists e. split; [done|]. split; [done|].
  intros n Hn. destruct (Hin n Hn). auto.
Qed.

Lemma keep_step_refl W t : keep_step W t t.
Proof. by split. Qed.

Lemma keep_step_trans W1 W2 t t1 t2 :
  keep_step W1 t t1 -> keep_step W2 t1 t2 -> keep_step (W1 ++ W2) t t2.
Proof.
  intros [Hr1 Hk1] [Hr2 Hk2]. split; [congruence|].
  intros n Hn. rewrite Hk2, Hk1; [done| |];
    intros Hin; apply Hn, in_or_app; auto.
Qed.

Lemma keep_step_mono W W' t t' :
  (forall n, In n W -> In n W') -> keep_step W t t' -> keep_step W' t t'.
Proof.
  intros Hsub [Hr Hk]. split; [done|]. intros n Hn. apply Hk. auto.
Qed.

Lemma setitem_table_names_step t name series t' :
  setitem_table t name series = Done t' -> names_step [name] t t'.
Proof.
  intros H. apply setitem_table_names in H.
  destruct (mem name (column_names (rcolumns t))) eqn:Hmem.
  - exists []. split; [by rewrite app_nil_r|].
    split; [apply NoDup_nil_2 | done].
  - exists [name]. split; [done|]. split; [apply NoDup_singleton|].
    intros n [<-|[]]. split; [by left | by apply mem_not_In].
Qed.

Lemma setitem_table_keep_step t name series t' :
  map fst series = rindex t ->
  setitem_table t name series = Done t' -> keep_step [name] t t'.
Proof.
  intros Hrows. rewrite (setitem_table_aligned _ _ _ Hrows).
  intros [= <-]. split; [done|]. simpl.
  intros n Hn. apply assoc_set_column_other.
  intros ->. apply Hn. by left.
Qed.

Lemma setitems_table_names_step W t new_series t' :
  (forall k s, In (k, s) new_series -> In k W) ->
  setitems_table t new_series = Done t' -> names_step W t t'.
Proof.
  revert t. induction new_series as [|[name series] rest IH]; intros t HW; simpl.
  - intros [= <-]. apply names_step_refl.
  - destruct (setitem_table t name series) as [t1|e] eqn:H1; simpl; [|done].
    intros Hrest.
    apply (names_step_mono ([name] ++ W)).
    + intros n [Hn|Hn]%in_app_or; [|done].
      destruct Hn as [<-|[]]. apply (HW name series). by left.
    + eapply names_step_trans.
      * by eapply setitem_table_names_step.
      * apply IH; [|done]. intros k s Hin. apply (HW k s). by right.
Qed.

Lemma setitems_table_keep_step W t new_series t' :
  (forall k s, In (k, s) new_series -> In k W /\ map fst s = rindex t) ->
  setitems_table t new_series = Done t' -> keep_step W t t'.
Proof.
  revert t. induction new_series as [|[name series] rest IH]; intros t HW; simpl.
  - intros [= <-]. apply keep_step_refl.
  - destruct (HW name series) as [HnW Hrows]; [by left|].
    destruct (setitem_table t name series) as [t1|e] eqn:H1; simpl; [|done].
    intros Hrest.
    pose proof (setitem_table_keep_step _ _ _ _ Hrows H1) as Hk1.
    apply (keep_step_mono ([name] ++ W)).
    + intros n [Hn|Hn]%in_app_or; [|done]. by destruct Hn as [<-|[]].
    + eapply keep_step_trans; [exact Hk1|].
      apply IH; [|done]. intros k s Hin.
      destruct (HW k s) as [? ?]; [by right|].
      split; [done|]. destruct Hk1 as [-> _]. done.
Qed.

(** *** The series a call assigns have one entry per asset *)

Lemma series_set_loc_keys col v s :
  map fst (series_set_loc col v s) = map fst s.
Proof.
  unfold series_set_loc. rewrite map_map. apply map_ext.
  intros [k x]. simpl. by destruct (String.eqb k col).
Qed.

Lemma details_loop_keys d ity cols p t r p' t' r' :
  details_loop d ity cols (p, t, r) = Done (p', t', r') ->
  map fst p' = map fst p /\ map fst t' = map fst t /\ map fst r' = map fst r.
Proof.
  revert p t r. induction cols as [|col rest IH]; intros p t r; simpl.
  - by intros [= <- <- <-].
  - destruct (assoc col (drawdown_frame d)); simpl; [|done].
    destruct (assoc col (cumulative_frame d)); simpl; [|done].
    destruct (assoc col (peak_frame d)); simpl; [|done].
    destruct (details_of _ _ _ _ _) as [[[pd td] rd]|e]; simpl; [|done].
    intros H. apply IH in H. by rewrite !series_set_loc_keys in H.
Qed.

Lemma mean_series_aligned d k : aligned d (mean_series d k).
Proof. unfold aligned, mean_series. by rewrite map_map. Qed.

Lemma max_drawdown_series_aligned d : aligned d (max_drawdown_series d).
Proof.
  unfold aligned, max_drawdown_series, drawdown_frame, cumulative_frame.
  by rewrite !map_map.
Qed.

Lemma empty_dates_aligned d : aligned d (empty_dates d).
Proof. unfold aligned, empty_dates. rewrite map_map. simpl. apply map_id. Qed.

Lemma df_quantile_aligned d q s : df_quantile d q = Done s -> aligned d s.
Proof.
  unfold df_quantile. destruct (_ && _); [|done].
  intros [= <-]. unfold aligned. by rewrite map_map.
Qed.

Lemma dict_set_In {A} k (v : A) d a b :
  In (a, b) (dict_set k v d) -> (a = k /\ b = v) \/ In (a, b) d.
Proof.
  induction d as [|[k' v'] d IH]; simpl.
  - intros [[= <- <-]|[]]. by left.
  - destruct (String.eqb_spec k' k) as [->|Hne].
    + intros [[= <- <-]|Hin]; [by left | right; by right].
    + intros [Heq|Hin]; [right; by left|].
      destruct (IH Hin); [by left | right; by right].
Qed.

Lemma dict_update_In {A} (d upd : list (string * A)) a b :
  In (a, b) (dict_update d upd) -> In (a, b) d \/ In (a, b) upd.
Proof.
  unfold dict_update. revert d.
  induction upd as [|[k v] upd IH]; intros d; simpl; [by left|].
  intros H. destruct (IH _ H) as [Hd|Hu]; [|right; by right].
  destruct (dict_set_In _ _ _ _ _ Hd) as [[-> ->]|Hd']; [right; by left | by left].
Qed.

Local Arguments dict_update : simpl never.

Lemma max_drawdown_data_entries d ity name details new_data k s :
  max_drawdown_data d ity name details = Done new_data ->
  In (k, s) new_data ->
  In k (written (MaxDrawdown name details "returns")) /\ aligned d s.
Proof.
  unfold max_drawdown_data. simpl. destruct details.
  - destruct (details_loop _ _ _ _) as [[[p t] r]|e] eqn:Hloop; simpl; [|done].
    apply details_loop_keys in Hloop. destruct Hloop as (Hp & Ht & Hr).
    pose proof (empty_dates_aligned d) as He. unfold aligned in *.
    intros [= <-] Hin. apply dict_update_In in Hin. simpl in Hin.
    destruct Hin as [[Heq|[]]|[Heq|[Heq|[Heq|[]]]]];
      injection Heq as <- <-; (split; [simpl; tauto|]); try congruence.
    apply max_drawdown_series_aligned.
  - intros [= <-] [[= <- <-]|[]]. split; [by left|].
    apply max_drawdown_series_aligned.
Qed.

Section TableFacts.

Variable sqrtq : Q -> Q.
Variable col_skew col_kurtosis : list Q -> Cell.

Let call_table := call_table sqrtq col_skew col_kurtosis.

Lemma std_series_aligned d k : aligned d (std_series sqrtq d k).
Proof. unfold aligned, std_series. by rewrite map_map. Qed.

Lemma sharpe_series_aligned d k rf : aligned d (sharpe_series sqrtq d k rf).
Proof. unfold aligned, sharpe_series. by rewrite map_map. Qed.

(** The names of the old columns keep their positions; new names come
    from [written c]. *)
Lemma call_table_names c d m t t' :
  call_table c d m t = Done t' -> names_step (written c) t t'.
Proof.
  destruct c; simpl; try by apply setitem_table_names_step.
  - destruct (df_quantile d quantile); simpl; [|done].
    by apply setitem_table_names_step.
  - by destruct (df_quantile d quantile).
  - destruct (annualization m =? 0)%Z; [done|].
    by apply setitem_table_names_step.
  - destruct (String.eqb data_type "prices"); [done|].
    destruct (max_drawdown_data d (_index_type m) name details)
      as [new_data|e] eqn:Hdata; simpl; [|done].
    apply setitems_table_names_step. intros k s Hin.
    by destruct (max_drawdown_data_entries _ _ _ _ _ _ _ Hdata Hin).
  - destruct (setitem_table t "mean" _) as [t1|] eqn:H1; simpl; [|done].
    destruct (setitem_table t1 "std" _) as [t2|] eqn:H2; simpl; [|done].
    destruct (annualization m =? 0)%Z; [done|]. intros H3.
    apply setitem_table_names_step in H1, H2, H3.
    apply (names_step_trans ["mean"] ["std"; "sharpe"] t t1 t'); [done|].
    by apply (names_step_trans ["std"] ["sharpe"] t1 t2 t').
  - destruct (df_quantile d quantile) as [var|]; simpl; [|done].
    by destruct (setitem_table t "VaR" var).
Qed.

(** When the rows of the table are the assets of the input table, the
    rows stay and the columns a call does not assign stay as they are. *)
Lemma call_table_keep c d m t t' :
  rindex t = column_names (tcolumns d) ->
  call_table c d m t = Done t' -> keep_step (written c) t t'.
Proof.
  intros Hrows.
  assert (Hal : forall s, aligned d s -> map fst s = rindex t)
    by (intros s Hs; by rewrite Hrows).
  destruct c; simpl.
  - apply setitem_table_keep_step, Hal, mean_series_aligned.
  - apply setitem_table_keep_step, Hal, std_series_aligned.
  - apply setitem_table_keep_step, Hal. unfold aligned. by rewrite map_map.
  - apply setitem_table_keep_step, Hal. unfold aligned. by rewrite map_map.
  - destruct (df_quantile d quantile) as [s|] eqn:Hq; simpl; [|done].
    apply setitem_table_keep_step, Hal. by eapply df_quantile_aligned.
  - by destruct (df_quantile d quantile).
  - destruct (annualization m =? 0)%Z; [done|].
    apply setitem_table_keep_step, Hal, sharpe_series_aligned.
  - destruct (String.eqb data_type "prices"); [done|].
    destruct (max_drawdown_data d (_index_type m) name details)
      as [new_data|e] eqn:Hdata; simpl; [|done].
    apply setitems_table_keep_step. intros k s Hin.
    destruct (max_drawdown_data_entries _ _ _ _ _ _ _ Hdata Hin).
    split; [done | by apply Hal].
  - destruct (setitem_table t "mean" _) as [t1|] eqn:H1; simpl; [|done].
    destruct (setitem_table t1 "std" _) as [t2|] eqn:H2; simpl; [|done].
    destruct (annualization m =? 0)%Z; [done|]. intros H3.
    apply setitem_table_keep_step in H1; [|apply Hal, mean_series_aligned].
    assert (Hr1 : rindex t1 = rindex t) by apply H1.
    apply setitem_table_keep_step in H2;
      [|rewrite Hr1; apply Hal, std_series_aligned].
    assert (Hr2 : rindex t2 = rindex t1) by apply H2.
    apply setitem_table_keep_step in H3;
      [|rewrite Hr2, Hr1; apply Hal, sharpe_series_aligned].
    apply (keep_step_trans ["mean"] ["std"; "sharpe"] t t1 t'); [done|].
    by apply (keep_step_trans ["std"] ["sharpe"] t1 t2 t').
  - destruct (df_quantile d quantile) as [var|]; simpl; [|done].
    by destruct (setitem_table t "VaR" var).
Qed.

End TableFacts.

(** ** Derivation leaves the receiver alone (C1, C10) *)


Lemma names_step_lookup W t t' i n :
  names_step W t t' ->
  column_names (rcolumns t) !! i = Some n ->
  column_names (rcolumns t') !! i = Some n.
Proof. intros (e & -> & _ & _) H. by apply lookup_app_l_Some. Qed.

Lemma names_step_all_present W t t' :
  names_step W t t' ->
  (forall n, In n W -> In n (column_names (rcolumns t))) ->
  column_names (rcolumns t') = column_names (rcolumns t).
Proof.
  intros (e & -> & _ & He) Hall. destruct e as [|n e]; [by rewrite app_nil_r|].
  destruct (He n) as [HW Hnot]; [by left|]. destruct Hnot. auto.
Qed.

(** What [call_post] gives on success, spelled out on the store. *)
Lemma call_post_return h self m d t r self' h' :
  acc_at h self m d t ->
  call_post h m d r (Return self' h') ->
  exists t' m',
    r = Done t' /\
    (forall l o, h !! l = Some o -> h' !! l = Some o) /\
    (length h <= self')%nat /\ (length h <= results m')%nat /\
    acc_at h' self' m' d t' /\
    data m' = data m /\ annualization m' = annualization m /\
    _index_type m' = tkind d.
Proof.
  intros (Hself & Hdata & Hres). simpl.
  intros (t' & mid & -> & -> & ->).
  assert (Hd : (h ++ mid)%list !! data m = Some (OInput d))
    by by apply lookup_grow.
  exists t', {| data := data m; annualization := annualization m;
                results := S (length (h ++ mid)%list);
                _index_type := tkind d |}.
  split; [done|]. split.
  { intros l o Hl. by do 2 apply lookup_grow. }
  cbn [data annualization results _index_type].
  rewrite length_app. repeat split; try lia.
  - rewrite <- length_app. apply (derived_acc (h ++ mid)%list m d t' Hd).
  - by do 2 apply lookup_grow.
  - rewrite <- length_app. apply (derived_acc (h ++ mid)%list m d t' Hd).
Qed.

Lemma call_post_raise h m d r e h' :
  call_post h m d r (Raise e h') ->
  r = Fail e /\ forall l o, h !! l = Some o -> h' !! l = Some o.
Proof.
  simpl. intros (-> & k & ->). split; [done|].
  intros l o Hl. by apply lookup_grow.
Qed.

Section Derivation.

Variable sqrtq : Q -> Q.
Variable col_skew col_kurtosis : list Q -> Cell.

Let call := call sqrtq col_skew col_kurtosis.


(** C10.  When a call of a statistic method returns, every column name of
    the receiver's result table is at the same position in the derived
    table, the assigned ones included; and when every name the call
    assigns was already a column, the derived table has exactly the
    column names of the receiver's table, in the same order. *)
Theorem overwrite_keeps_column_order h self m d t c self' h' :
  acc_at h self m d t ->
  call self c h = Return self' h' ->
  exists m' t',
    acc_at h' self' m' d t' /\
    (forall i n, column_names (rcolumns t) !! i = Some n ->
                 column_names (rcolumns t') !! i = Some n) /\
    ((forall n, In n (written c) -> In n (column_names (rcolumns t))) ->
     column_names (rcolumns t') = column_names (rcolumns t)).
Proof.
  intros Hacc Hcall.
  pose proof (call_eval sqrtq col_skew col_kurtosis h self m d t c Hacc)
    as Hpost.
  fold call in Hpost. rewrite Hcall in Hpost.
  destruct (call_post_return _ _ _ _ _ _ _ _ Hacc Hpost)
    as (t' & m' & Ht & _ & _ & _ & Hacc' & _).
  pose proof (call_table_names _ _ _ _ _ _ _ _ Ht) as Hnames.
  exists m', t'. split; [done|]. split.
  - intros i n. by apply names_step_lookup with (W := written c).
  - by apply names_step_all_present.
Qed.

End Derivation.




Lemma overwrite_keeps_column_order_witness :
  acc_at example_heap_x 5 example_acc_x example_table example_results_x /\
  call isqrt_q no_moment no_moment 5 (VaR_ 0 "x") example_heap_x
  = Return 8%nat example_heap_var /\
  exists m' t',
    acc_at example_heap_var 8 m' example_table t' /\
    (forall i n, column_names (rcolumns example_results_x) !! i = Some n ->
                 column_names (rcolumns t') !! i = Some n) /\
    ((forall n, In n (written (VaR_ 0 "x")) ->
                In n (column_names (rcolumns example_results_x))) ->
     column_names (rcolumns t') = column_names (rcolumns example_results_x)).
Proof.
  split; [by repeat split|]. split; [vm_compute; reflexivity|].
  apply (overwrite_keeps_column_order isqrt_q no_moment no_moment
           example_heap_x 5 example_acc_x example_table example_results_x
           (VaR_ 0 "x") 8).
  - by repeat split.
  - vm_compute. reflexivity.
Defined.

(** ** Overwriting a column (C7) and annualization (C8) *)

Lemma _with_column_aligned h self m d t name series :
  acc_at h self m d t ->
  map fst series = rindex t ->
  _with_column self name series h
  = Return (S (S (length h)))
      (h ++ derived h m d
              {| rindex := rindex t;
                 rcolumns := set_column name (map snd series) (rcolumns t) |})%list.
Proof.
  intros Hacc Hrows.
  by rewrite (_with_column_eval _ _ _ _ _ _ _ Hacc),
             (setitem_table_aligned _ _ _ Hrows).
Qed.


Lemma std_eval sqrtq h self m d t name :
  acc_at h self m d t ->
  rindex t = column_names (tcolumns d) ->
  std sqrtq self name h
  = Return (S (S (length h)))
      (h ++ derived h m d
              {| rindex := rindex t;
                 rcolumns := set_column name
                               (map snd (std_series sqrtq d (annualization m)))
                               (rcolumns t) |})%list.
Proof.
  intros Hacc Hrows. pose proof Hacc as (Hself & Hdata & Hres).
  unfold std, bind at 1, read_metrics. rewrite Hself.
  unfold bind at 1, read_input. rewrite Hdata.
  apply _with_column_aligned; [done|].
  rewrite Hrows. apply std_series_aligned.
Qed.

Lemma occurrences_In x names : In x names <-> (1 <= occurrences x names)%nat.
Proof.
  unfold occurrences. induction names as [|n names IH]; simpl.
  - split; [done | lia].
  - destruct (String.eqb_spec x n) as [->|Hne]; simpl.
    + split; [lia | by left].
    + rewrite <- IH. split; [intros [?|?]; [congruence | done] | by right].
Qed.





(** C7 as stated fails: the constructor accepts a seed table, and a seed
    may have two columns called [x].  An assignment to [x] overwrites both,
    so after [mean("x").mean("x")] the table still has two columns called
    [x], not exactly one. *)
Lemma mean_twice_keeps_both_columns :
  ~ (forall h self m d t x b h1 c h2 mc tc,
        acc_at h self m d t ->
        mean self x h = Return b h1 ->
        mean b x h1 = Return c h2 ->
        acc_at h2 c mc d tc ->
        occurrences x (column_names (rcolumns tc)) = 1%nat).
Proof.
  intros H.
  destruct (mean 3 "x" two_x_heap) as [b h1|e h1] eqn:E1;
    [|vm_compute in E1; discriminate].
  destruct (mean b "x" h1) as [c h2|e h2] eqn:E2.
  2: { vm_compute in E1. injection E1 as <- <-.
       vm_compute in E2. discriminate. }
  assert (Hacc : acc_at two_x_heap 3
                   {| data := 0; annualization := 4; results := 2;
                      _index_type := IntIndex |}
                   example_table two_x_table) by by repeat split.
  pose proof (H _ _ _ _ _ _ _ _ _ _
                {| data := 0; annualization := 4; results := 8;
                   _index_type := IntIndex |}
                {| rindex := ["a"];
                   rcolumns := [("x", [CNum (36 # 3)]);
                                ("x", [CNum (36 # 3)])] |}
                Hacc E1 E2) as Hone.
  vm_compute in E1. injection E1 as <- <-.
  vm_compute in E2. injection E2 as <- <-.
  assert (Hc : occurrences "x" ["x"; "x"] = 1%nat).
  { apply Hone. by repeat split. }
  vm_compute in Hc. discriminate.
Qed.

(** *** Annualization (C8) *)

Section Scaling.

(** The reductions of the engine and the power of the interpreter. *)
Variable col_mean col_std : list float -> float.
Variable pow_half : Z -> float.


End Scaling.


(** The factors for monthly, weekly and daily returns are exact, and
    [float(2^53)] is still [2^53]; with an average of [0.1] and the factor
    [3] the product rounds: it is [0.30000000000000004], not [0.3]. *)
Example annualization_scaling_example :
  Binary64.float_of_int 12 = 12%float /\
  Binary64.float_of_int 52 = 52%float /\
  Binary64.float_of_int 252 = 252%float /\
  Binary64.float_of_int (2 ^ 53) = 0x1p+53%float /\
  Binary64.mean_series (fun _ => 0.1%float) [("a", [0.1]%float)] 3
  = [("a", 0.30000000000000004%float)] /\
  PrimFloat.eqb 0.30000000000000004 0.3 = false.
Proof. by vm_compute. Qed.

(** ** The unsupported variant (C5) *)

(** C5.  [max_drawdown] with [data_type = "prices"] raises
    [NotImplementedError] at once: the store is the one before the call, so
    nothing was computed or allocated, no accumulator was derived, and the
    receiver's result table has the columns it had. *)
Theorem prices_raises_without_effect h self name details :
  max_drawdown self name details "prices" h
  = Raise (NotImplementedError
             "max_drawdown with data_type='prices' is not implemented yet.") h.
Proof. reflexivity. Qed.

(** ** The tail mean (C6) *)

(** C6 (code).  [CVaR] never returns: once the quantile is computed, the
    [.loc] lookup with a boolean table raises, so no tail mean is
    produced. *)
Theorem CVaR_never_returns self q name h a h' :
  CVaR self q name h <> Return a h'.
Proof.
  unfold CVaR, bind, read_metrics, read_input.
  destruct (h !! self) as [[| |m]|]; try done.
  destruct (h !! data m) as [[d| |]|]; try done.
  by destruct (df_quantile d q).
Qed.

Lemma Qlen_cons x l : Qlen (x :: l) == Qlen l + 1.
Proof.
  unfold Qlen. simpl length. rewrite Nat2Z.inj_succ, <- Z.add_1_r.
  by rewrite inject_Z_plus.
Qed.

Lemma Qlen_nonneg l : 0 <= Qlen l.
Proof.
  unfold Qlen. change 0 with (inject_Z 0). rewrite <- Zle_Qle. lia.
Qed.

Lemma Qsum_le_bound v l :
  (forall x, In x l -> x <= v) -> Qsum l <= Qlen l * v.
Proof.
  induction l as [|x l IH]; intros Hle.
  - change (0 <= 0 * v). lra.
  - rewrite Qlen_cons. unfold Qsum in *. simpl.
    assert (x <= v) by (apply Hle; by left).
    assert (fold_right Qplus 0 l <= Qlen l * v)
      by (apply IH; intros y Hy; apply Hle; by right).
    lra.
Qed.

(** The inequality of C6 on the engine's reductions: the mean of the
    returns that are at most [v] is at most [v].  This is what the
    expression of [CVaR] would yield per column if the mask were applied
    with [frame[mask]] and [v] were the quantile. *)
Lemma tail_mean_le v xs :
  List.filter (fun x => Qle_bool x v) xs <> [] ->
  exists q,
    col_mean (List.filter (fun x => Qle_bool x v) xs) = CNum q /\ q <= v.
Proof.
  set (tail := List.filter (fun x => Qle_bool x v) xs). intros Hne.
  assert (Hall : forall x, In x tail -> x <= v).
  { intros x Hx. apply filter_In in Hx as [_ Hx]. by apply Qle_bool_iff. }
  destruct tail as [|x tail'] eqn:E; [done|].
  eexists. split; [reflexivity|].
  pose proof (Qsum_le_bound v (x :: tail') Hall) as Hsum.
  pose proof (Qlen_nonneg tail'). pose proof (Qlen_cons x tail') as Hlen.
  apply Qle_shift_div_r; lra.
Qed.

(** On the example, with the default quantile: the store is unchanged. *)
Example CVaR_example :
  CVaR 2 (1 # 20) "CVaR" example_heap
  = Raise (ValueError "Cannot index with multidimensional key") example_heap.
Proof. reflexivity. Qed.

(** ** Attribute access (C9) *)

Lemma append_assoc_string (a b c : string) : (a ++ b) ++ c = a ++ (b ++ c).
Proof.
  induction a as [|x a IH]; [done|].
  change (String x ((a ++ b) ++ c) = String x (a ++ (b ++ c))).
  by rewrite IH.
Qed.

Lemma message_names_attribute name :
  exists pre post, unknown_attribute_message name = pre ++ name ++ post.
Proof.
  exists "'ReturnMetrics' has no attribute '",
         "'. Use `.df` for full DataFrame access.".
  reflexivity.
Qed.

Lemma message_points_at_df name :
  exists pre post, unknown_attribute_message name = pre ++ ".df" ++ post.
Proof.
  exists ("'ReturnMetrics' has no attribute '" ++ name ++ "'. Use `"),
         "` for full DataFrame access.".
  unfold unknown_attribute_message, type_name.
  rewrite !append_assoc_string. reflexivity.
Qed.

(** C9 as stated fails: [_repr_html_] is neither bound on the accumulator
    nor in the allow-list, yet the access does not raise, because the
    table class has an attribute of that name. *)
Lemma repr_names_do_not_raise :
  ~ (forall h self m d t name,
        acc_at h self m d t ->
        ~ In name own_attributes ->
        ~ In name _proxy ->
        exists msg, __getattr__ self name h = Raise (AttributeError msg) h).
Proof.
  intros H.
  destruct (H example_heap 2%nat example_acc example_table example_results
              "_repr_html_") as (msg & Hmsg).
  - by repeat split.
  - intros Hin. apply mem_In in Hin. vm_compute in Hin. discriminate.
  - intros Hin. apply mem_In in Hin. vm_compute in Hin. discriminate.
  - vm_compute in Hmsg. discriminate.
Qed.

(** C9 (amended).  On an accumulator [A] with result table [t]:
    a name of the allow-list is forwarded to [t] and the store is left as
    it is; so is a name that starts with [_repr_] and that [t] has as an
    attribute; every other name that normal lookup does not find raises
    [AttributeError], with a message that contains the name and points at
    [.df], and the store is left as it is. *)
Theorem getattr_boundary h self m d t name :
  acc_at h self m d t ->
  (In name _proxy ->
   __getattr__ self name h = Return (Forwarded (results m) name) h) /\
  (String.prefix "_repr_" name = true -> hasattr_results t name = true ->
   __getattr__ self name h = Return (Forwarded (results m) name) h) /\
  (~ In name _proxy ->
   ~ (String.prefix "_repr_" name = true /\ hasattr_results t name = true) ->
   __getattr__ self name h
   = Raise (AttributeError (unknown_attribute_message name)) h /\
   (exists pre post, unknown_attribute_message name = pre ++ name ++ post) /\
   (exists pre post, unknown_attribute_message name = pre ++ ".df" ++ post)).
Proof.
  intros (Hself & _ & Hres).
  unfold __getattr__, bind, read_metrics, read_results.
  rewrite Hself, Hres. split; [|split].
  - intros Hin. apply mem_In in Hin. by rewrite Hin.
  - intros -> ->. by destruct (mem name _proxy).
  - intros Hnot Hrepr. apply mem_not_In in Hnot. rewrite Hnot.
    split; [|split].
    + destruct (String.prefix "_repr_" name), (hasattr_results t name);
        simpl; try done.
      by destruct Hrepr.
    + apply message_names_attribute.
    + apply message_points_at_df.
Qed.

Lemma getattr_boundary_witness :
  acc_at example_heap 2 example_acc example_table example_results /\
  (In "shape" _proxy /\
   __getattr__ 2 "shape" example_heap
   = Return (Forwarded (results example_acc) "shape") example_heap) /\
  (String.prefix "_repr_" "_repr_html_" = true /\
   hasattr_results example_results "_repr_html_" = true /\
   __getattr__ 2 "_repr_html_" example_heap
   = Return (Forwarded (results example_acc) "_repr_html_") example_heap) /\
  (~ In "loc" _proxy /\
   ~ (String.prefix "_repr_" "loc" = true /\
      hasattr_results example_results "loc" = true) /\
   __getattr__ 2 "loc" example_heap
   = Raise (AttributeError (unknown_attribute_message "loc")) example_heap /\
   (exists pre post, unknown_attribute_message "loc" = pre ++ "loc" ++ post) /\
   (exists pre post, unknown_attribute_message "loc" = pre ++ ".df" ++ post)).
Proof.
  assert (Hacc : acc_at example_heap 2 example_acc example_table
                   example_results) by by repeat split.
  assert (Hshape : In "shape" _proxy) by (apply mem_In; reflexivity).
  assert (Hloc : ~ In "loc" _proxy) by (apply mem_not_In; reflexivity).
  assert (Hrepr : ~ (String.prefix "_repr_" "loc" = true /\
                     hasattr_results example_results "loc" = true))
    by (by intros [? _]).
  split; [exact Hacc|].
  split.
  { split; [exact Hshape|].
    exact (proj1 (getattr_boundary example_heap 2 example_acc example_table
                    example_results "shape" Hacc) Hshape). }
  split.
  { split; [reflexivity|]. split; [reflexivity|].
    exact (proj1 (proj2 (getattr_boundary example_heap 2 example_acc
                           example_table example_results "_repr_html_" Hacc))
             eq_refl eq_refl). }
  split; [exact Hloc|]. split; [exact Hrepr|].
  exact (proj2 (proj2 (getattr_boundary example_heap 2 example_acc
                         example_table example_results "loc" Hacc))
           Hloc Hrepr).
Defined.

(** On the example: [shape] is forwarded, [loc] raises. *)
Example getattr_example :
  __getattr__ 2 "shape" example_heap = Return (Forwarded 1%nat "shape") example_heap /\
  __getattr__ 2 "loc" example_heap
  = Raise (AttributeError
             "'ReturnMetrics' has no attribute 'loc'. Use `.df` for full DataFrame access.")
      example_heap.
Proof. split; reflexivity. Qed.

(** ** Drawdown: the literal scenario (C2) *)


(** C2 as stated fails: the statistic the code reports for the scenario is
    not the float [-0.2].  The quotient [(0.8800000000000001 - 1.1) / 1.1]
    rounds to [-0.19999999999999996]. *)
Lemma scenario_statistic_is_not_minus_0_2 :
  Binary64.statistic [0.1; -0.2; 0.05; 0.1; 0.0]%float <> (-0.2)%float.
Proof.
  intros E.
  assert (H : PrimFloat.eqb
                (Binary64.statistic [0.1; -0.2; 0.05; 0.1; 0.0]%float)
                (-0.2) = false) by (vm_compute; reflexivity).
  rewrite E in H. vm_compute in H. discriminate.
Qed.

(** In exact arithmetic the statistic of the scenario is [-0.2]. *)
Example drawdown_scenario_exact :
  cell_eq (cells_min (drawdown_column [0.1; -0.2; 0.05; 0.1; 0.0]))
          (CNum (-0.2)).
Proof. by vm_compute. Qed.

(** ** Drawdown: sign (C4) *)

Lemma Qeqb_false_pos y : 0 < y -> Qeqb y 0 = false.
Proof.
  intros Hy. unfold Qeqb. apply andb_false_iff. left.
  destruct (Qle_bool y 0) eqn:E; [|done].
  apply Qle_bool_iff in E. lra.
Qed.

Lemma q_div_pos x y : 0 < y -> q_div x y = CNum (x / y).
Proof. intros Hy. unfold q_div. by rewrite Qeqb_false_pos. Qed.



Lemma cumprod_from_pos acc xs w :
  0 < acc -> (forall x, In x xs -> 0 < x) ->
  In w (cumprod_from acc xs) -> 0 < w.
Proof.
  revert acc. induction xs as [|x xs IH]; intros acc Hacc Hxs; simpl; [done|].
  assert (0 < acc * x).
  { apply Qmult_lt_0_compat; [done|]. apply Hxs. by left. }
  intros [<-|Hin]; [done|].
  apply (IH (acc * x)); [done| |done]. intros y Hy. apply Hxs. by right.
Qed.

Lemma cumulative_of_pos returns w :
  (forall r, In r returns -> -1 < r) ->
  In w (cumulative_of returns) -> 0 < w.
Proof.
  intros Hr. unfold cumulative_of.
  assert (Hpos : forall x, In x (map (fun r => 1 + r) returns) -> 0 < x).
  { intros x (r & <- & Hin)%in_map_iff. specialize (Hr r Hin). lra. }
  destruct (map (fun r => 1 + r) returns) as [|x xs]; simpl; [done|].
  intros [<-|Hin]; [apply Hpos; by left|].
  apply (cumprod_from_pos x xs); [apply Hpos; by left| |done].
  intros y Hy. apply Hpos. by right.
Qed.




Lemma drawdown_of_length ws ps :
  length ps = length ws -> length (drawdown_of ws ps) = length ws.
Proof.
  revert ps. induction ws as [|w ws IH]; intros [|p ps]; simpl; try done.
  intros [= H]. by rewrite IH.
Qed.

Lemma cumprod_from_length acc xs : length (cumprod_from acc xs) = length xs.
Proof. revert acc. induction xs as [|x xs IH]; intros acc; simpl; [done|]. by rewrite IH. Qed.

Lemma cumulative_of_length returns :
  length (cumulative_of returns) = length returns.
Proof.
  unfold cumulative_of, cumprod.
  destruct returns as [|r rs]; simpl; [done|].
  by rewrite cumprod_from_length, length_map.
Qed.

Lemma cummax_from_length acc xs : length (cummax_from acc xs) = length xs.
Proof. revert acc. induction xs as [|x xs IH]; intros acc; simpl; [done|]. by rewrite IH. Qed.

Lemma cummax_length ws : length (cummax ws) = length ws.
Proof. destruct ws; simpl; [done|]. by rewrite cummax_from_length. Qed.

Lemma drawdown_column_length returns :
  length (drawdown_column returns) = length returns.
Proof.
  unfold drawdown_column.
  by rewrite drawdown_of_length, cumulative_of_length; [|apply cummax_length].
Qed.





(** On that example the reported statistic is [-0.5]. *)
Example drawdown_nonpositive_example :
  match max_drawdown_series positive_wealth_table with
  | [(_, v)] => cell_eq v (CNum (-0.5))
  | _ => False
  end.
Proof. vm_compute. reflexivity. Qed.

(** ** Drawdown: trough and peak dates (C3) *)

(** *** The order on cells that are not NaN *)

Lemma cell_leb_refl c : is_nan c = false -> cell_leb c c = true.
Proof. destruct c; simpl; try done. intros _. apply Qle_bool_iff. lra. Qed.

Lemma cell_leb_trans a b c :
  cell_leb a b = true -> cell_leb b c = true -> cell_leb a c = true.
Proof.
  destruct a, b, c; simpl; try done.
  rewrite !Qle_bool_iff. lra.
Qed.

Lemma cell_leb_total a b :
  is_nan a = false -> is_nan b = false ->
  cell_leb a b = false -> cell_leb b a = true.
Proof.
  destruct a, b; simpl; try done. intros _ _ H.
  apply Qle_bool_iff.
  assert (~ q <= q0) by (rewrite <- Qle_bool_iff; congruence). lra.
Qed.

Lemma cell_ltb_leb a b :
  is_nan a = false -> is_nan b = false ->
  cell_ltb a b = true -> cell_leb a b = true.
Proof.
  unfold cell_ltb. rewrite negb_true_iff. intros Ha Hb H.
  by apply cell_leb_total.
Qed.

Lemma cell_ltb_leb_trans a b c :
  is_nan b = false ->
  cell_ltb a b = true -> cell_leb b c = true -> cell_ltb a c = true.
Proof.
  unfold cell_ltb. rewrite !negb_true_iff. intros Hb Hab Hbc.
  destruct (cell_leb c a) eqn:E; [|done].
  by rewrite (cell_leb_trans _ _ _ Hbc E) in Hab.
Qed.

(** *** First minimum, first maximum *)

Lemma nth_error_lookup {A} (l : list A) i : nth_error l i = l !! i.
Proof. revert i. induction l; intros [|i]; simpl; auto. Qed.

(** [argmin_from], scanning [cs] as the part of [pre ++ cs] after [pre]. *)
Lemma argmin_from_spec pre cs best bv :
  pre !! best = Some bv -> is_nan bv = false ->
  (forall j c, pre !! j = Some c -> is_nan c = false -> cell_leb bv c = true) ->
  (forall j c, (j < best)%nat -> pre !! j = Some c -> is_nan c = false ->
               cell_ltb bv c = true) ->
  exists c,
    let p := argmin_from best bv (length pre) cs in
    (pre ++ cs)%list !! p = Some c /\ is_nan c = false /\
    (forall j c', (pre ++ cs)%list !! j = Some c' -> is_nan c' = false ->
                  cell_leb c c' = true) /\
    (forall j c', (j < p)%nat -> (pre ++ cs)%list !! j = Some c' ->
                  is_nan c' = false -> cell_ltb c c' = true).
Proof.
  revert pre best bv. induction cs as [|x cs IH]; intros pre best bv Hb Hn Hle Hlt.
  - exists bv. simpl. rewrite app_nil_r. auto.
  - simpl.
    assert (Hlen : length (pre ++ [x])%list = S (length pre))
      by (rewrite length_app; simpl; lia).
    assert (Hb' : (pre ++ [x])%list !! best = Some bv)
      by by apply lookup_app_l_Some.
    assert (Happ : (pre ++ x :: cs = (pre ++ [x]) ++ cs)%list)
      by by rewrite <- app_assoc.
    rewrite Happ, <- Hlen.
    assert (Hsplit : forall j c, (pre ++ [x])%list !! j = Some c ->
                       pre !! j = Some c \/ (j = length pre /\ c = x)).
    { intros j c Hj. rewrite lookup_app in Hj.
      destruct (pre !! j) eqn:E; [left; congruence|].
      right. apply lookup_ge_None in E.
      destruct (j - length pre)%nat eqn:D; simpl in Hj; [|done].
      split; [lia | congruence]. }
    destruct (is_nan x) eqn:Hx; [|destruct (cell_ltb x bv) eqn:Hxb].
    + apply IH; try done.
      * intros j c Hj Hc. destruct (Hsplit j c Hj) as [?|[_ ->]]; [eauto | congruence].
      * intros j c Hjb Hj Hc.
        destruct (Hsplit j c Hj) as [?|[_ ->]]; [eauto | congruence].
    + apply IH; try done.
      * by rewrite list_lookup_middle.
      * intros j c Hj Hc. destruct (Hsplit j c Hj) as [Hp|[_ ->]].
        -- eapply cell_leb_trans; [apply cell_ltb_leb; [exact Hx | exact Hn | exact Hxb] | by eapply Hle].
        -- by apply cell_leb_refl.
      * intros j c Hjb Hj Hc. destruct (Hsplit j c Hj) as [Hp|[-> _]]; [|lia].
        eapply cell_ltb_leb_trans; [exact Hn | done | by eapply Hle].
    + apply IH; try done.
      * intros j c Hj Hc. destruct (Hsplit j c Hj) as [?|[_ ->]]; [eauto|].
        unfold cell_ltb in Hxb. by apply negb_false_iff in Hxb.
      * intros j c Hjb Hj Hc.
        destruct (Hsplit j c Hj) as [?|[-> _]]; [eauto|].
        apply lookup_lt_Some in Hb. lia.
Qed.

Lemma lookup_snoc_cases {A} (pre : list A) x j c :
  (pre ++ [x])%list !! j = Some c ->
  pre !! j = Some c \/ (j = length pre /\ c = x).
Proof.
  intros Hj. rewrite lookup_app in Hj.
  destruct (pre !! j) eqn:E; [left; congruence|].
  right. apply lookup_ge_None in E.
  destruct (j - length pre)%nat eqn:D; simpl in Hj; [|done].
  split; [lia | congruence].
Qed.

Lemma argmin_at_spec pre cs p :
  (forall j c, pre !! j = Some c -> is_nan c = true) ->
  argmin_at (length pre) cs = Some p ->
  exists c,
    (pre ++ cs)%list !! p = Some c /\ is_nan c = false /\
    (forall j c', (pre ++ cs)%list !! j = Some c' -> is_nan c' = false ->
                  cell_leb c c' = true) /\
    (forall j c', (j < p)%nat -> (pre ++ cs)%list !! j = Some c' ->
                  is_nan c' = false -> cell_ltb c c' = true).
Proof.
  revert pre. induction cs as [|x cs IH]; intros pre Hpre; simpl; [done|].
  assert (Hlen : length (pre ++ [x])%list = S (length pre))
    by (rewrite length_app; simpl; lia).
  assert (Happ : (pre ++ x :: cs = (pre ++ [x]) ++ cs)%list)
    by by rewrite <- app_assoc.
  rewrite Happ, <- Hlen.
  destruct (is_nan x) eqn:Hx.
  - apply IH. intros j c Hj.
    destruct (lookup_snoc_cases _ _ _ _ Hj) as [?|[_ ->]]; eauto.
  - intros [= <-].
    apply (argmin_from_spec (pre ++ [x])%list cs (length pre) x); try done.
    + by rewrite list_lookup_middle.
    + intros j c Hj Hc.
      destruct (lookup_snoc_cases _ _ _ _ Hj) as [Hp|[_ ->]].
      * rewrite (Hpre _ _ Hp) in Hc. done.
      * by apply cell_leb_refl.
    + intros j c Hlt Hj Hc.
      destruct (lookup_snoc_cases _ _ _ _ Hj) as [Hp|[-> _]]; [|lia].
      rewrite (Hpre _ _ Hp) in Hc. done.
Qed.

(** [argmin]: the position of the first smallest cell that is not NaN. *)
Lemma argmin_spec cs p :
  argmin cs = Some p ->
  exists c,
    cs !! p = Some c /\ is_nan c = false /\
    (forall j c', cs !! j = Some c' -> is_nan c' = false ->
                  cell_leb c c' = true) /\
    (forall j c', (j < p)%nat -> cs !! j = Some c' -> is_nan c' = false ->
                  cell_ltb c c' = true).
Proof. intros H. by apply (argmin_at_spec [] cs p). Qed.

Lemma Qltb_lt a b : Qltb a b = true <-> a < b.
Proof.
  unfold Qltb. rewrite negb_true_iff. split.
  - intros H. assert (~ b <= a) by (rewrite <- Qle_bool_iff; congruence). lra.
  - intros H. destruct (Qle_bool b a) eqn:E; [|done].
    apply Qle_bool_iff in E. lra.
Qed.

Lemma Qltb_ge a b : Qltb a b = false <-> b <= a.
Proof.
  unfold Qltb. rewrite negb_false_iff. apply Qle_bool_iff.
Qed.

Lemma argmax_from_spec pre xs best bv :
  pre !! best = Some bv ->
  (forall j x, pre !! j = Some x -> x <= bv) ->
  (forall j x, (j < best)%nat -> pre !! j = Some x -> x < bv) ->
  exists v,
    let p := argmax_from best bv (length pre) xs in
    (pre ++ xs)%list !! p = Some v /\
    (forall j x, (pre ++ xs)%list !! j = Some x -> x <= v) /\
    (forall j x, (j < p)%nat -> (pre ++ xs)%list !! j = Some x -> x < v).
Proof.
  revert pre best bv. induction xs as [|y xs IH]; intros pre best bv Hb Hle Hlt.
  - exists bv. simpl. rewrite app_nil_r. auto.
  - simpl.
    assert (Hlen : length (pre ++ [y])%list = S (length pre))
      by (rewrite length_app; simpl; lia).
    assert (Happ : (pre ++ y :: xs = (pre ++ [y]) ++ xs)%list)
      by by rewrite <- app_assoc.
    rewrite Happ, <- Hlen.
    destruct (Qltb bv y) eqn:Hy.
    + apply Qltb_lt in Hy. apply IH.
      * by rewrite list_lookup_middle.
      * intros j x Hj.
        destruct (lookup_snoc_cases _ _ _ _ Hj) as [Hp|[_ ->]]; [|lra].
        specialize (Hle _ _ Hp). lra.
      * intros j x Hjl Hj.
        destruct (lookup_snoc_cases _ _ _ _ Hj) as [Hp|[-> _]]; [|lia].
        specialize (Hle _ _ Hp). lra.
    + apply Qltb_ge in Hy. apply IH.
      * by apply lookup_app_l_Some.
      * intros j x Hj.
        destruct (lookup_snoc_cases _ _ _ _ Hj) as [Hp|[_ ->]]; eauto.
      * intros j x Hjl Hj.
        destruct (lookup_snoc_cases _ _ _ _ Hj) as [Hp|[-> _]]; [eauto|].
        apply lookup_lt_Some in Hb. lia.
Qed.

(** [argmax]: the position of the first largest number. *)
Lemma argmax_spec xs p :
  argmax xs = Some p ->
  exists v,
    xs !! p = Some v /\
    (forall j x, xs !! j = Some x -> x <= v) /\
    (forall j x, (j < p)%nat -> xs !! j = Some x -> x < v).
Proof.
  destruct xs as [|x xs]; simpl; [done|]. intros [= <-].
  apply (argmax_from_spec [x] xs 0%nat x); try done.
  - intros [|j] y; simpl; [intros [= ->]; lra | done].
  - intros j y Hj. lia.
Qed.

(** *** Running maximum and running product *)










(** *** Labels and positions *)

Lemma map_fst_combine_eq {A B} (l1 : list A) (l2 : list B) :
  length l1 = length l2 -> map fst (combine l1 l2) = l1.
Proof.
  revert l2. induction l1 as [|a l1 IH]; intros [|b l2]; simpl; try done.
  intros [= H]. by rewrite IH.
Qed.

Lemma map_snd_combine_eq {A B} (l1 : list A) (l2 : list B) :
  length l1 = length l2 -> map snd (combine l1 l2) = l2.
Proof.
  revert l2. induction l1 as [|a l1 IH]; intros [|b l2]; simpl; try done.
  intros [= H]. by rewrite IH.
Qed.

Lemma pos_of_NoDup index i t :
  NoDup index -> index !! i = Some t -> pos_of t index = Some i.
Proof.
  revert i. induction index as [|l index IH]; intros i Hnd; simpl; [done|].
  apply NoDup_cons in Hnd as [Hnot Hnd].
  destruct i as [|i]; simpl.
  - intros [= ->]. by rewrite Z.eqb_refl.
  - intros Hi. destruct (Z.eqb_spec l t) as [->|Hne].
    + destruct Hnot. apply list_elem_of_lookup. eauto.
    + by rewrite (IH _ Hnd Hi).
Qed.




(** *** The loop body of [max_drawdown], step by step *)






Lemma Qdiv_sub_self w : (w - w) / w == 0.
Proof.
  unfold Qdiv. assert (H : w - w == 0) by ring.
  rewrite H. ring.
Qed.




(** *** From the loop body to the date columns *)

Lemma assoc_map_values {A B} (f : A -> B) k (l : list (string * A)) :
  assoc k (map (fun cv => (fst cv, f (snd cv))) l) = option_map f (assoc k l).
Proof.
  induction l as [|[k' v] l IH]; simpl; [done|].
  by destruct (String.eqb k' k).
Qed.

Lemma assoc_In_NoDup {A} k (v : A) (l : list (string * A)) :
  NoDup (column_names l) -> In (k, v) l -> assoc k l = Some v.
Proof.
  induction l as [|[k' v'] l IH]; simpl; [done|].
  intros [Hnot Hnd]%NoDup_cons [[= -> ->]|Hin].
  - by rewrite String.eqb_refl.
  - destruct (String.eqb_spec k' k) as [->|Hne]; [|by apply IH].
    destruct Hnot. apply list_elem_of_In, in_map_iff. by exists (k, v).
Qed.




(** *** The dictionary of [max_drawdown] with details *)

Lemma append_length_string (a b : string) :
  String.length (a ++ b) = (String.length a + String.length b)%nat.
Proof.
  induction a as [|x a IH]; [done|].
  change (S (String.length (a ++ b)) = S (String.length a + String.length b)).
  by rewrite IH.
Qed.

Lemma append_inj_string (a b c : string) : a ++ b = a ++ c -> b = c.
Proof.
  induction a as [|x a IH]; [done|].
  change (String x (a ++ b) = String x (a ++ c) -> b = c).
  intros [= H]. by apply IH.
Qed.

Lemma eqb_append_self name suffix :
  suffix <> "" -> String.eqb name (name ++ suffix) = false.
Proof.
  intros Hne. apply String.eqb_neq. intros H.
  apply (f_equal String.length) in H. rewrite append_length_string in H.
  destruct suffix; [done|]. simpl in H. lia.
Qed.

Lemma eqb_append_other name a b :
  a <> b -> String.eqb (name ++ a) (name ++ b) = false.
Proof.
  intros Hne. apply String.eqb_neq. intros H. by apply append_inj_string in H.
Qed.

Lemma max_drawdown_data_details d ity name new_data :
  max_drawdown_data d ity name true = Done new_data ->
  exists p t r,
    details_loop d ity (column_names (tcolumns d))
      (empty_dates d, empty_dates d, empty_dates d) = Done (p, t, r) /\
    new_data = [(name, max_drawdown_series d);
                (name ++ "_peak_date", p);
                (name ++ "_trough_date", t);
                (name ++ "_recovery_date", r)].
Proof.
  unfold max_drawdown_data.
  destruct (details_loop _ _ _ _) as [[[p t] r]|e]; simpl; [|done].
  intros [= <-]. exists p, t, r. split; [done|].
  unfold dict_update. simpl.
  rewrite !eqb_append_self by done.
  simpl. rewrite !eqb_append_self by done.
  rewrite (eqb_append_other name "_peak_date" "_trough_date") by done.
  simpl. rewrite !eqb_append_self by done.
  rewrite (eqb_append_other name "_peak_date" "_recovery_date") by done.
  by rewrite (eqb_append_other name "_trough_date" "_recovery_date").
Qed.



Lemma assoc_lookup_values (s : Series) i col v :
  NoDup (map fst s) -> map fst s !! i = Some col ->
  assoc col s = Some v -> map snd s !! i = Some v.
Proof.
  revert i. induction s as [|[k x] s IH]; intros i Hnd; simpl; [done|].
  simpl in Hnd. apply NoDup_cons in Hnd as [Hnot Hnd].
  destruct i as [|i]; simpl.
  - intros [= ->]. by rewrite String.eqb_refl.
  - intros Hi. destruct (String.eqb_spec k col) as [->|Hne].
    + destruct Hnot. apply list_elem_of_lookup. eauto.
    + by apply IH.
Qed.


Lemma frames_of_column d col returns :
  NoDup (column_names (tcolumns d)) ->
  In (col, returns) (tcolumns d) ->
  assoc col (cumulative_frame d) = Some (cumulative_of returns) /\
  assoc col (peak_frame d) = Some (cummax (cumulative_of returns)) /\
  assoc col (drawdown_frame d) = Some (drawdown_column returns).
Proof.
  intros Hnd Hin. pose proof (assoc_In_NoDup _ _ _ Hnd Hin) as Hcol.
  unfold peak_frame, drawdown_frame, cumulative_frame.
  rewrite (assoc_map_values (fun ws => cummax ws)).
  rewrite (assoc_map_values (fun ws => drawdown_of ws (cummax ws))).
  rewrite (assoc_map_values cumulative_of), Hcol. done.
Qed.






(** Under the default integer index the slice [cumulative[col][:0]] is
    empty: a column that never draws down has its trough at the first
    step, and the call raises instead of reporting dates. *)
Example no_drawdown_raises :
  max_drawdown_data
    {| tkind := IntIndex; tindex := [0; 1]%Z;
       tcolumns := [("a", [0.1; 0.2])] |} IntIndex "dd" true
  = Fail (ValueError "attempt to get argmax of an empty sequence").
Proof. reflexivity. Qed.

(** ** Drawdown: the reported statistic (C4) *)








(** On that example, with details: the statistic is [-0.5], the peak date
    [1], the trough date [2], and there is no recovery. *)
Example drawdown_nonpositive_run :
  match max_drawdown 2 "dd" true "returns" positive_heap with
  | Return self' h' =>
      match h' !! 4%nat with
      | Some (OResults t') =>
          (exists v, cell_at t' "dd" "a" = Some v /\ cell_eq v (CNum (-0.5))) /\
          cell_at t' "dd_peak_date" "a" = Some (CNum 1) /\
          cell_at t' "dd_trough_date" "a" = Some (CNum 2) /\
          cell_at t' "dd_recovery_date" "a" = Some CNaN
      | _ => False
      end
  | Raise _ _ => False
  end.
Proof.
  vm_compute. split; [|by repeat split].
  eexists. split; reflexivity.
Qed.

(** ** Accumulators built through the interface *)

Lemma fresh_accumulator h dl d k :
  h !! dl = Some (OInput d) ->
  __init__ dl k None h
  = Return (S (length h))
      (h ++ [OResults {| rindex := column_names (tcolumns d); rcolumns := [] |};
             OMetrics {| data := dl; annualization := k;
                         results := length h; _index_type := tkind d |}])%list.
Proof.
  intros Hd. unfold __init__, bind, read_input. rewrite Hd.
  unfold alloc. rewrite length_app. simpl.
  rewrite <- app_assoc. simpl. repeat f_equal. lia.
Qed.

(** A fresh accumulator has the assets as rows and no column. *)
Lemma fresh_wf h dl d k :
  h !! dl = Some (OInput d) ->
  exists self h', __init__ dl k None h = Return self h' /\ wf_acc h' self.
Proof.
  intros Hd. eexists _, _. split; [by apply fresh_accumulator|].
  eexists _, d, _. split; [|split].
  - repeat split.
    + rewrite lookup_app_r by lia.
      by replace (S (length h) - length h)%nat with 1%nat by lia.
    + by apply lookup_grow.
    + simpl. by rewrite list_lookup_middle.
  - done.
  - apply NoDup_nil_2.
Qed.

Lemma names_step_NoDup W t t' :
  names_step W t t' ->
  NoDup (column_names (rcolumns t)) -> NoDup (column_names (rcolumns t')).
Proof.
  intros (e & -> & Hnd & Hin) Ht. apply NoDup_app. split; [done|].
  split; [|done].
  intros n Hn1%list_elem_of_In Hn2%list_elem_of_In.
  by destruct (Hin n Hn2).
Qed.

Lemma NoDup_occurrences x names :
  NoDup names -> (occurrences x names <= 1)%nat.
Proof.
  unfold occurrences. induction names as [|n names IH]; simpl; [lia|].
  intros [Hnot Hnd]%NoDup_cons. specialize (IH Hnd).
  destruct (String.eqb_spec x n) as [->|Hne]; simpl; [|done].
  assert (~ (1 <= occurrences n names)%nat).
  { rewrite <- occurrences_In. intros H. by apply Hnot, list_elem_of_In. }
  unfold occurrences in *. lia.
Qed.

(** Every statistic call that returns keeps the accumulator well formed:
    the accumulators reachable from a fresh one satisfy the hypotheses of
    the statements above. *)
Lemma call_preserves_wf sqrtq col_skew col_kurtosis h self c self' h' :
  wf_acc h self ->
  call sqrtq col_skew col_kurtosis self c h = Return self' h' ->
  wf_acc h' self'.
Proof.
  intros (m & d & t & Hacc & Hrows & Hnd) Hcall.
  pose proof (call_eval sqrtq col_skew col_kurtosis h self m d t c Hacc)
    as Hpost.
  rewrite Hcall in Hpost.
  destruct (call_post_return _ _ _ _ _ _ _ _ Hacc Hpost)
    as (t' & m' & Ht & _ & _ & _ & Hacc' & _).
  exists m', d, t'. split; [done|]. split.
  - destruct (call_table_keep _ _ _ _ _ _ _ _ Hrows Ht) as [-> _]. done.
  - eapply names_step_NoDup; [|done]. by eapply call_table_names.
Qed.

(** * Further properties of the class *)

(** ** The constructor and [df]: defensive copies *)

(** [__init__] with a seed table: the accumulator holds a new table with
    the contents of the seed, the seed and every other object stay as they
    are, and a later in-place assignment to the seed does not reach the
    accumulator's table. *)
Theorem seed_is_copied h dl d seed ts k :
  h !! dl = Some (OInput d) ->
  h !! seed = Some (OResults ts) ->
  exists self h' m,
    __init__ dl k (Some seed) h = Return self h' /\
    acc_at h' self m d ts /\
    data m = dl /\ annualization m = k /\ _index_type m = tkind d /\
    results m <> seed /\
    (forall l o, h !! l = Some o -> h' !! l = Some o) /\
    forall name series h'',
      setitem seed name series h' = Return tt h'' ->
      h'' !! results m = Some (OResults ts) /\
      h'' !! self = Some (OMetrics m).
Proof.
  intros Hd Hs.
  pose proof (lookup_lt_Some _ _ _ Hd) as Hdl.
  pose proof (lookup_lt_Some _ _ _ Hs) as Hsl.
  exists (S (length h)),
    (h ++ [OResults ts;
           OMetrics {| data := dl; annualization := k;
                       results := length h; _index_type := tkind d |}])%list,
    {| data := dl; annualization := k;
       results := length h; _index_type := tkind d |}.
  assert (Hnew1 : forall X : list object,
             (h ++ OResults ts :: X)%list !! length h = Some (OResults ts))
    by (intros X; by rewrite list_lookup_middle).
  split.
  { unfold __init__, bind, read_input. rewrite Hd.
    unfold copy_deep, bind, read_results. rewrite Hs. unfold alloc.
    rewrite length_app. simpl. rewrite <- app_assoc. simpl.
    repeat f_equal. lia. }
  split.
  { repeat split; cbn [data results].
    - rewrite lookup_app_r by lia.
      by replace (S (length h) - length h)%nat with 1%nat by lia.
    - by apply lookup_grow.
    - apply Hnew1. }
  cbn [data annualization results _index_type].
  split; [done|]. split; [done|]. split; [done|]. split; [lia|].
  split; [intros l o Hl; by apply lookup_grow|].
  intros name series h'' H.
  unfold setitem, bind, read_results in H.
  rewrite (lookup_grow _ _ _ _ Hs) in H.
  destruct (setitem_table ts name series) as [t1|]; simpl in H; [|done].
  unfold write in H. injection H as <-.
  rewrite !list_lookup_insert_ne by lia. split; [apply Hnew1|].
  rewrite lookup_app_r by lia.
  by replace (S (length h) - length h)%nat with 1%nat by lia.
Qed.

Lemma seed_is_copied_witness :
  example_heap_x !! 0%nat = Some (OInput example_table) /\
  example_heap_x !! 4%nat = Some (OResults example_results_x) /\
  exists self h' m,
    __init__ 0 7 (Some 4%nat) example_heap_x = Return self h' /\
    acc_at h' self m example_table example_results_x /\
    data m = 0%nat /\ annualization m = 7%Z /\
    _index_type m = tkind example_table /\
    results m <> 4%nat /\
    (forall l o, example_heap_x !! l = Some o -> h' !! l = Some o) /\
    forall name series h'',
      setitem 4 name series h' = Return tt h'' ->
      h'' !! results m = Some (OResults example_results_x) /\
      h'' !! self = Some (OMetrics m).
Proof.
  split; [reflexivity|]. split; [reflexivity|].
  apply (seed_is_copied example_heap_x 0 example_table 4 example_results_x 7);
    reflexivity.
Defined.

(** [df] hands out a new table with the contents of the accumulator's
    result table; every object of the store stays as it is, and an
    in-place assignment to the table handed out does not reach the
    accumulator or its result table. *)
Theorem df_is_a_copy h self m d t :
  acc_at h self m d t ->
  exists r h',
    df self h = Return r h' /\
    h' !! r = Some (OResults t) /\
    r <> results m /\
    (forall l o, h !! l = Some o -> h' !! l = Some o) /\
    forall name series h'',
      setitem r name series h' = Return tt h'' ->
      h'' !! results m = Some (OResults t) /\
      h'' !! self = Some (OMetrics m).
Proof.
  intros (Hself & Hdata & Hres).
  pose proof (lookup_lt_Some _ _ _ Hself) as Hsl.
  pose proof (lookup_lt_Some _ _ _ Hres) as Hrl.
  exists (length h), (h ++ [OResults t])%list.
  split.
  { unfold df, bind, read_metrics. rewrite Hself.
    unfold copy_deep, bind, read_results. by rewrite Hres. }
  split; [apply lookup_snoc_here|]. split; [lia|].
  split; [intros l o Hl; by apply lookup_grow|].
  intros name series h'' H.
  unfold setitem, bind, read_results in H. rewrite lookup_snoc_here in H.
  destruct (setitem_table t name series) as [t1|]; simpl in H; [|done].
  unfold write in H. injection H as <-.
  rewrite !list_lookup_insert_ne by lia.
  split; by apply lookup_grow.
Qed.

Lemma df_is_a_copy_witness :
  acc_at example_heap_x 5 example_acc_x example_table example_results_x /\
  exists r h',
    df 5 example_heap_x = Return r h' /\
    h' !! r = Some (OResults example_results_x) /\
    r <> results example_acc_x /\
    (forall l o, example_heap_x !! l = Some o -> h' !! l = Some o) /\
    forall name series h'',
      setitem r name series h' = Return tt h'' ->
      h'' !! results example_acc_x = Some (OResults example_results_x) /\
      h'' !! 5%nat = Some (OMetrics example_acc_x).
Proof.
  split; [by repeat split|].
  apply (df_is_a_copy example_heap_x 5 example_acc_x example_table
           example_results_x).
  by repeat split.
Defined.

(** ** A call as a list of column assignments *)

Lemma setitems_table_assign_all t assigns :
  (forall n s, In (n, s) assigns -> map fst s = rindex t) ->
  setitems_table t assigns
  = Done {| rindex := rindex t;
            rcolumns := assign_all assigns (rcolumns t) |}.
Proof.
  revert t. induction assigns as [|[n s] rest IH]; intros t Hal; simpl.
  - by destruct t.
  - rewrite setitem_table_aligned by (apply (Hal n); by left). simpl.
    rewrite IH; [done|]. simpl. intros n' s' Hin. apply (Hal n'). by right.
Qed.

Lemma assoc_assign_all n assigns cols :
  assoc n (assign_all assigns cols)
  = match last_assigned n assigns with
    | Some s => Some (map snd s)
    | None => assoc n cols
    end.
Proof.
  revert cols. induction assigns as [|[k s] rest IH]; intros cols; simpl; [done|].
  unfold assign_all in *. simpl. rewrite IH.
  destruct (last_assigned n rest); [done|].
  destruct (String.eqb_spec k n) as [->|Hne].
  - apply assoc_set_column_same.
  - apply assoc_set_column_other. congruence.
Qed.

Lemma last_assigned_None n assigns :
  last_assigned n assigns = None <-> ~ In n (map fst assigns).
Proof.
  induction assigns as [|[k s] rest IH]; simpl; [tauto|].
  destruct (last_assigned n rest) as [s'|].
  - split; [done|]. intros H. apply IH. intros Hin. apply H. by right.
  - destruct (String.eqb_spec k n) as [->|Hne].
    + split; [done|]. intros H. destruct H. by left.
    + split; [|done]. intros _ [?|Hin]; [done|]. by apply (proj1 IH).
Qed.

Section Assignments.

Variable sqrtq : Q -> Q.
Variable col_skew col_kurtosis : list Q -> Cell.

Let call := call sqrtq col_skew col_kurtosis.
Let call_table := call_table sqrtq col_skew col_kurtosis.
Let assignments := assignments sqrtq col_skew col_kurtosis.

(** A call succeeds on a table exactly when its computation succeeds and
    its assignments, one after the other, succeed on the table. *)
Lemma call_table_assignments c d m t t' :
  call_table c d m t = Done t' <->
  exists assigns,
    assignments c d m = Done assigns /\ setitems_table t assigns = Done t'.
Proof.
  destruct c; simpl.
  1-4: split;
    [intros H; eexists; split; [done|]; simpl; by rewrite H
    |intros (a & [= <-] & H); simpl in H;
     by destruct (setitem_table t name _)].
  - destruct (df_quantile d quantile) as [var|]; simpl.
    + split; [intros H; eexists; split; [done|]; simpl; by rewrite H|].
      intros (a & [= <-] & H). simpl in H.
      by destruct (setitem_table t name var).
    + split; [done | by intros (a & ? & _)].
  - split; [by destruct (df_quantile d quantile) | by intros (a & ? & _)].
  - destruct (annualization m =? 0)%Z.
    + split; [done | by intros (a & ? & _)].
    + split; [intros H; eexists; split; [done|]; simpl; by rewrite H|].
      intros (a & [= <-] & H). simpl in H.
      by destruct (setitem_table t name _).
  - destruct (String.eqb data_type "prices").
    + split; [done | by intros (a & ? & _)].
    + destruct (max_drawdown_data d (_index_type m) name details) as [nd|];
        simpl.
      * split; [intros H; by exists nd | by intros (a & [= <-] & H)].
      * split; [done | by intros (a & ? & _)].
  - destruct (annualization m =? 0)%Z.
    + split; [|by intros (a & ? & _)].
      destruct (setitem_table t "mean" _) as [t1|]; simpl; [|done].
      by destruct (setitem_table t1 "std" _).
    + split.
      * intros H. eexists. split; [done|]. simpl.
        destruct (setitem_table t "mean" _) as [t1|]; simpl in *; [|done].
        destruct (setitem_table t1 "std" _) as [t2|]; simpl in *; [|done].
        by rewrite H.
      * intros (a & [= <-] & H). simpl in H.
        destruct (setitem_table t "mean" _) as [t1|]; simpl in *; [|done].
        destruct (setitem_table t1 "std" _) as [t2|]; simpl in *; [|done].
        by destruct (setitem_table t2 "sharpe" _).
  - split; [|by intros (a & ? & _)].
    destruct (df_quantile d quantile) as [var|]; simpl; [|done].
    by destruct (setitem_table t "VaR" var).
Qed.

(** The assigned names are the names of [written], in order, and every
    assigned series has one entry per asset. *)
Lemma assignments_keys c d m assigns :
  assignments c d m = Done assigns ->
  map fst assigns = written c /\
  forall n s, In (n, s) assigns -> aligned d s.
Proof.
  destruct c; simpl.
  - intros [= <-]. split; [done|].
    intros n s [[= <- <-]|[]]. apply mean_series_aligned.
  - intros [= <-]. split; [done|].
    intros n s [[= <- <-]|[]]. apply std_series_aligned.
  - intros [= <-]. split; [done|].
    intros n s [[= <- <-]|[]]. unfold aligned. by rewrite map_map.
  - intros [= <-]. split; [done|].
    intros n s [[= <- <-]|[]]. unfold aligned. by rewrite map_map.
  - destruct (df_quantile d quantile) as [var|] eqn:Hq; simpl; [|done].
    intros [= <-]. split; [done|].
    intros n s [[= <- <-]|[]]. by eapply df_quantile_aligned.
  - done.
  - destruct (annualization m =? 0)%Z; [done|].
    intros [= <-]. split; [done|].
    intros n s [[= <- <-]|[]]. apply sharpe_series_aligned.
  - destruct (String.eqb data_type "prices"); [done|]. intros Hdata. split.
    + destruct details.
      * by destruct (max_drawdown_data_details _ _ _ _ Hdata)
          as (p & tr & r & _ & ->).
      * unfold max_drawdown_data in Hdata. by injection Hdata as <-.
    + intros n s Hin.
      by destruct (max_drawdown_data_entries _ _ _ _ _ _ _ Hdata Hin).
  - destruct (annualization m =? 0)%Z; [done|].
    intros [= <-]. split; [done|].
    intros n s [[= <- <-]|[[= <- <-]|[[= <- <-]|[]]]].
    + apply mean_series_aligned.
    + apply std_series_aligned.
    + apply sharpe_series_aligned.
  - done.
Qed.

(** The assignments depend on the accumulator only through its
    annualization factor and its index type. *)
Lemma assignments_ext c d m1 m2 :
  annualization m1 = annualization m2 ->
  _index_type m1 = _index_type m2 ->
  assignments c d m1 = assignments c d m2.
Proof. intros Hk Hi. destruct c; simpl; by rewrite ?Hk, ?Hi. Qed.

(** A call whose table effect is defined returns. *)
Lemma call_returns h self m d t c t' :
  acc_at h self m d t ->
  call_table c d m t = Done t' ->
  exists self' h' m',
    call self c h = Return self' h' /\
    acc_at h' self' m' d t' /\
    data m' = data m /\ annualization m' = annualization m /\
    _index_type m' = tkind d /\
    (forall l o, h !! l = Some o -> h' !! l = Some o).
Proof.
  intros Hacc Ht.
  pose proof (call_eval sqrtq col_skew col_kurtosis h self m d t c Hacc)
    as Hpost.
  fold call in Hpost. fold call_table in Hpost.
  destruct (call self c h) as [self' h'|e h'].
  - destruct (call_post_return _ _ _ _ _ _ _ _ Hacc Hpost)
      as (t2 & m' & Ht2 & Hold & _ & _ & Hacc' & Hd & Hk & Hi).
    rewrite Ht in Ht2. injection Ht2 as <-.
    exists self', h', m'. done.
  - destruct (call_post_raise _ _ _ _ _ _ Hpost) as [E _]. congruence.
Qed.

(** A call that returns, as assignments on the receiver's table. *)
Lemma call_return_assignments h self m d t c self' h' :
  acc_at h self m d t ->
  rindex t = column_names (tcolumns d) ->
  call self c h = Return self' h' ->
  exists assigns m',
    assignments c d m = Done assigns /\
    acc_at h' self' m' d
      {| rindex := rindex t; rcolumns := assign_all assigns (rcolumns t) |} /\
    data m' = data m /\ annualization m' = annualization m /\
    _index_type m' = tkind d /\
    (forall l o, h !! l = Some o -> h' !! l = Some o).
Proof.
  intros Hacc Hrows Hcall.
  pose proof (call_eval sqrtq col_skew col_kurtosis h self m d t c Hacc)
    as Hpost.
  fold call in Hpost. rewrite Hcall in Hpost.
  destruct (call_post_return _ _ _ _ _ _ _ _ Hacc Hpost)
    as (t' & m' & Ht & Hold & _ & _ & Hacc' & Hd & Hk & Hi).
  apply call_table_assignments in Ht as (assigns & Has & Hset).
  destruct (assignments_keys _ _ _ _ Has) as [_ Hal].
  rewrite setitems_table_assign_all in Hset.
  - injection Hset as <-. exists assigns, m'. done.
  - intros n s Hin. rewrite Hrows. by apply (Hal n).
Qed.

End Assignments.

(** *** Tables after assignments *)

Lemma table_ext {A} (c1 c2 : list (string * A)) :
  NoDup (column_names c1) ->
  column_names c1 = column_names c2 ->
  (forall n, assoc n c1 = assoc n c2) ->
  c1 = c2.
Proof.
  revert c2. induction c1 as [|[k1 v1] c1 IH]; intros [|[k2 v2] c2]; simpl;
    try done.
  intros [Hnot Hnd]%NoDup_cons [= <- Hn] Has.
  pose proof (Has k1) as Hk. rewrite !String.eqb_refl in Hk.
  injection Hk as <-. f_equal. apply IH; try done.
  intros n. specialize (Has n).
  destruct (String.eqb_spec k1 n) as [Heq|Hne]; [|done].
  subst n.
  assert (E1 : assoc k1 c1 = None).
  { apply assoc_None. intros H. by apply Hnot, list_elem_of_In. }
  assert (E2 : assoc k1 c2 = None).
  { apply assoc_None. rewrite <- Hn. intros H. by apply Hnot, list_elem_of_In. }
  congruence.
Qed.

Lemma assign_all_cons k s rest cols :
  assign_all ((k, s) :: rest) cols
  = assign_all rest (set_column k (map snd s) cols).
Proof. done. Qed.

Lemma In_names_assoc {A} n (l : list (string * A)) :
  In n (column_names l) <-> exists v, assoc n l = Some v.
Proof.
  pose proof (assoc_None n l) as H.
  destruct (assoc n l) as [v|]; split.
  - eauto.
  - intros _. destruct (in_dec string_dec n (column_names l)); [done|].
    by apply H in n0.
  - intros Hin. exfalso. by apply (proj1 H).
  - by intros (v & ?).
Qed.

Lemma names_assign_all_In n assigns cols :
  In n (column_names (assign_all assigns cols)) <->
  In n (map fst assigns) \/ In n (column_names cols).
Proof.
  rewrite In_names_assoc, assoc_assign_all.
  pose proof (last_assigned_None n assigns) as Hnone.
  destruct (last_assigned n assigns) as [s|].
  - split; [|eauto]. intros _. left.
    destruct (in_dec string_dec n (map fst assigns)); [done|].
    by apply Hnone in n0.
  - rewrite <- In_names_assoc. split; [by right|].
    intros [Hin|?]; [|done]. exfalso. by apply (proj1 Hnone).
Qed.

Lemma names_assign_all_present assigns cols :
  (forall n, In n (map fst assigns) -> In n (column_names cols)) ->
  column_names (assign_all assigns cols) = column_names cols.
Proof.
  revert cols. induction assigns as [|[k s] rest IH]; intros cols Hin; [done|].
  rewrite assign_all_cons.
  assert (Hk : column_names (set_column k (map snd s) cols) = column_names cols).
  { rewrite set_column_names.
    replace (mem k (column_names cols)) with true; [done|].
    symmetry. apply mem_In, Hin. by left. }
  rewrite IH; [done|]. intros n Hn. rewrite Hk. apply Hin. by right.
Qed.

Lemma NoDup_assign_all assigns cols :
  NoDup (column_names cols) -> NoDup (column_names (assign_all assigns cols)).
Proof.
  revert cols. induction assigns as [|[k s] rest IH]; intros cols Hnd; [done|].
  rewrite assign_all_cons. apply IH. rewrite set_column_names.
  destruct (mem k (column_names cols)) eqn:Hmem; [done|].
  apply mem_not_In in Hmem. apply NoDup_app. split; [done|].
  split; [|apply NoDup_singleton].
  intros n Hn1%list_elem_of_In Hn2%list_elem_of_In.
  destruct Hn2 as [<-|[]]. done.
Qed.

Lemma In_set_column n col k vals cols :
  In (n, col) (set_column k vals cols) -> In (n, col) cols \/ col = vals.
Proof.
  unfold set_column. destruct (mem k (column_names cols)).
  - intros ([k' v'] & Heq & Hin)%in_map_iff. simpl in Heq.
    destruct (String.eqb k' k); injection Heq as <- <-; auto.
  - intros [?|[[= <- <-]|[]]]%in_app_or; auto.
Qed.

Lemma assign_all_lengths L assigns cols n col :
  (forall n col, In (n, col) cols -> length col = L) ->
  (forall n s, In (n, s) assigns -> length s = L) ->
  In (n, col) (assign_all assigns cols) -> length col = L.
Proof.
  revert cols. induction assigns as [|[k s] rest IH]; intros cols Hc Ha;
    [apply Hc|].
  rewrite assign_all_cons. apply IH.
  - intros n' col' [?| ->]%In_set_column; [eauto|].
    rewrite length_map. apply (Ha k). by left.
  - intros n' s' Hin. apply (Ha n'). by right.
Qed.

(** ** How calls compose *)

Section Composition.

Variable sqrtq : Q -> Q.
Variable col_skew col_kurtosis : list Q -> Cell.

Let call := call sqrtq col_skew col_kurtosis.
Let chain := chain sqrtq col_skew col_kurtosis.
Let assignments := assignments sqrtq col_skew col_kurtosis.

(** A statistic call never reads the result table to compute its values.
    Take two accumulators over the same input table, with the same
    annualization factor and index type, whose result tables both have the
    assets as rows but may differ otherwise.  If a call returns on one, it
    returns on the other, and every column the call assigns holds the same
    cells in both derived tables. *)
Theorem statistic_ignores_results h a b ma mb d ta tb c a' ha :
  acc_at h a ma d ta ->
  acc_at h b mb d tb ->
  annualization ma = annualization mb ->
  _index_type ma = _index_type mb ->
  rindex ta = column_names (tcolumns d) ->
  rindex tb = column_names (tcolumns d) ->
  call a c h = Return a' ha ->
  exists b' hb ma' ta' mb' tb',
    call b c h = Return b' hb /\
    acc_at ha a' ma' d ta' /\
    acc_at hb b' mb' d tb' /\
    forall n, In n (written c) ->
      exists col,
        assoc n (rcolumns ta') = Some col /\
        assoc n (rcolumns tb') = Some col.
Proof.
  intros Ha Hb Hk Hi Hra Hrb Hcall.
  destruct (call_return_assignments sqrtq col_skew col_kurtosis
              _ _ _ _ _ _ _ _ Ha Hra Hcall)
    as (assigns & ma' & Has & Ha' & _).
  destruct (assignments_keys _ _ _ _ _ _ _ Has) as [Hkeys Hal].
  assert (Htb : call_table sqrtq col_skew col_kurtosis c d mb tb
                = Done {| rindex := rindex tb;
                          rcolumns := assign_all assigns (rcolumns tb) |}).
  { apply call_table_assignments. exists assigns. split.
    - rewrite <- Has. symmetry. by apply assignments_ext.
    - apply setitems_table_assign_all. intros n s Hin.
      rewrite Hrb. by apply (Hal n). }
  destruct (call_returns sqrtq col_skew col_kurtosis _ _ _ _ _ _ _ Hb Htb)
    as (b' & hb & mb' & Hcb & Hb' & _).
  eexists b', hb, ma', _, mb', _.
  split; [exact Hcb|]. split; [exact Ha'|]. split; [exact Hb'|].
  intros n Hn. simpl. rewrite !assoc_assign_all.
  destruct (last_assigned n assigns) as [s|] eqn:E; [eauto|].
  apply last_assigned_None in E. destruct E. by rewrite Hkeys.
Qed.

(** Repeating a call changes nothing.  On an accumulator as the
    constructor builds it (assets as rows, distinct column names, index
    type of the input table), if [A.c()] returns [B] then [B.c()] returns
    an accumulator whose result table is equal to the table of [B]. *)
Theorem repeated_call_same_table h a m d t c b h1 :
  acc_at h a m d t ->
  rindex t = column_names (tcolumns d) ->
  NoDup (column_names (rcolumns t)) ->
  _index_type m = tkind d ->
  call a c h = Return b h1 ->
  exists c2 h2 mb mc tb,
    call b c h1 = Return c2 h2 /\
    acc_at h1 b mb d tb /\
    acc_at h2 c2 mc d tb.
Proof.
  intros Ha Hrows Hnd Hi Hcall.
  destruct (call_return_assignments sqrtq col_skew col_kurtosis
              _ _ _ _ _ _ _ _ Ha Hrows Hcall)
    as (assigns & mb & Has & Hb & _ & Hk & Hib & _).
  destruct (assignments_keys _ _ _ _ _ _ _ Has) as [Hkeys Hal].
  set (tb := {| rindex := rindex t;
                rcolumns := assign_all assigns (rcolumns t) |}) in *.
  assert (Htc : call_table sqrtq col_skew col_kurtosis c d mb tb = Done tb).
  { apply call_table_assignments. exists assigns. split.
    - rewrite <- Has. apply assignments_ext; congruence.
    - rewrite setitems_table_assign_all.
      + unfold tb. simpl. f_equal. f_equal.
        apply table_ext.
        * by do 2 apply NoDup_assign_all.
        * apply names_assign_all_present. intros n Hn.
          apply names_assign_all_In. by left.
        * intros n. rewrite !assoc_assign_all.
          by destruct (last_assigned n assigns).
      + intros n s Hin. simpl. rewrite Hrows. by apply (Hal n). }
  destruct (call_returns sqrtq col_skew col_kurtosis _ _ _ _ _ _ _ Hb Htc)
    as (c2 & h2 & mc & Hcc & Hc & _).
  by exists c2, h2, mb, mc, tb.
Qed.

(** Calls that assign different columns commute up to the order of the
    columns: on an accumulator as the constructor builds it, [A.c1().c2()]
    and [A.c2().c1()] hold tables with the same rows and, under every
    column name, the same cells. *)
Theorem disjoint_calls_commute h a m d t c1 c2 b1 h1 b12 h12 b2 h2 b21 h21 :
  acc_at h a m d t ->
  rindex t = column_names (tcolumns d) ->
  _index_type m = tkind d ->
  (forall n, In n (written c1) -> ~ In n (written c2)) ->
  call a c1 h = Return b1 h1 ->
  call b1 c2 h1 = Return b12 h12 ->
  call a c2 h = Return b2 h2 ->
  call b2 c1 h2 = Return b21 h21 ->
  exists m12 t12 m21 t21,
    acc_at h12 b12 m12 d t12 /\
    acc_at h21 b21 m21 d t21 /\
    rindex t12 = rindex t21 /\
    forall n, assoc n (rcolumns t12) = assoc n (rcolumns t21).
Proof.
  intros Ha Hrows Hi Hdisj Hc1 Hc12 Hc2 Hc21.
  destruct (call_return_assignments sqrtq col_skew col_kurtosis
              _ _ _ _ _ _ _ _ Ha Hrows Hc1)
    as (as1 & m1 & Has1 & Hb1 & _ & Hk1 & Hi1 & _).
  destruct (call_return_assignments sqrtq col_skew col_kurtosis
              _ _ _ _ _ _ _ _ Hb1 Hrows Hc12)
    as (as2 & m12 & Has2 & Hb12 & _).
  destruct (call_return_assignments sqrtq col_skew col_kurtosis
              _ _ _ _ _ _ _ _ Ha Hrows Hc2)
    as (as2' & m2 & Has2' & Hb2 & _ & Hk2 & Hi2 & _).
  destruct (call_return_assignments sqrtq col_skew col_kurtosis
              _ _ _ _ _ _ _ _ Hb2 Hrows Hc21)
    as (as1' & m21 & Has1' & Hb21 & _).
  assert (as2' = as2).
  { rewrite (assignments_ext sqrtq col_skew col_kurtosis c2 d m1 m) in Has2
      by congruence.
    congruence. }
  assert (as1' = as1).
  { rewrite (assignments_ext sqrtq col_skew col_kurtosis c1 d m2 m) in Has1'
      by congruence.
    congruence. }
  subst as2' as1'.
  destruct (assignments_keys _ _ _ _ _ _ _ Has1) as [Hkeys1 _].
  destruct (assignments_keys _ _ _ _ _ _ _ Has2) as [Hkeys2 _].
  eexists m12, _, m21, _.
  split; [exact Hb12|]. split; [exact Hb21|]. split; [done|].
  intros n. simpl. rewrite !assoc_assign_all.
  destruct (last_assigned n as1) as [s1|] eqn:E1;
    destruct (last_assigned n as2) as [s2|] eqn:E2; try done.
  exfalso. apply (Hdisj n).
  - rewrite <- Hkeys1.
    destruct (in_dec string_dec n (map fst as1)) as [|Hn]; [done|].
    apply last_assigned_None in Hn. congruence.
  - rewrite <- Hkeys2.
    destruct (in_dec string_dec n (map fst as2)) as [|Hn]; [done|].
    apply last_assigned_None in Hn. congruence.
Qed.

(** The invariant of a chain, from any accumulator that has it: the same
    input table and annualization factor, the assets as rows, distinct
    column names, one cell per asset in every column, and only column
    names that were there or that some call of the chain assigns. *)
Lemma chain_preserves cs h a m d t self' h' :
  acc_at h a m d t ->
  rindex t = column_names (tcolumns d) ->
  NoDup (column_names (rcolumns t)) ->
  rectangular t ->
  chain a cs h = Return self' h' ->
  exists m' t',
    acc_at h' self' m' d t' /\
    data m' = data m /\ annualization m' = annualization m /\
    rindex t' = column_names (tcolumns d) /\
    NoDup (column_names (rcolumns t')) /\
    rectangular t' /\
    (forall n, In n (column_names (rcolumns t')) ->
               In n (column_names (rcolumns t)) \/
               exists c, In c cs /\ In n (written c)) /\
    (forall l o, h !! l = Some o -> h' !! l = Some o).
Proof.
  revert h a m t. induction cs as [|c cs IH];
    intros h a m t Ha Hrows Hnd Hrect; simpl.
  - intros [= <- <-]. exists m, t. repeat split; try done; try apply Ha.
    intros n Hn. by left.
  - intros Hrest.
    change (bind (call a c) (fun b => chain b cs) h = Return self' h') in Hrest.
    unfold bind in Hrest.
    destruct (call a c h) as [b h1|] eqn:Hcall; [|done].
    destruct (call_return_assignments sqrtq col_skew col_kurtosis
                _ _ _ _ _ _ _ _ Ha Hrows Hcall)
      as (assigns & mb & Has & Hb & Hd & Hk & _ & Hold).
    destruct (assignments_keys _ _ _ _ _ _ _ Has) as [Hkeys Hal].
    assert (Hnd1 : NoDup (column_names (assign_all assigns (rcolumns t))))
      by by apply NoDup_assign_all.
    assert (Hrect1 : rectangular
                       {| rindex := rindex t;
                          rcolumns := assign_all assigns (rcolumns t) |}).
    { intros n col Hin. simpl in *.
      apply (assign_all_lengths (length (rindex t)) assigns (rcolumns t) n col);
        [exact Hrect| |done].
      intros n' s Hs. rewrite Hrows.
      rewrite <- (Hal n' s Hs), length_map. done. }
    destruct (IH _ _ _ _ Hb Hrows Hnd1 Hrect1 Hrest)
      as (m' & t' & Hacc' & Hd' & Hk' & Hrows' & Hnd' & Hrect' & Hnames & Hold').
    exists m', t'.
    split; [done|]. split; [congruence|]. split; [congruence|].
    split; [done|]. split; [done|]. split; [done|]. split.
    + intros n Hn. destruct (Hnames n Hn) as [Hold_n|(c' & Hc' & Hw)].
      * simpl in Hold_n. apply names_assign_all_In in Hold_n as [Hn'|?];
          [|by left].
        right. exists c. split; [by left|]. by rewrite <- Hkeys.
      * right. exists c'. split; [by right | done].
    + intros l o Hl. by apply Hold', Hold.
Qed.

(** Every accumulator reached from a fresh one by a chain of statistic
    calls that return refers to the input table and annualization factor
    given to the constructor, and its result table has the assets as rows,
    distinct column names, one cell per asset in every column, and only
    columns that some call of the chain assigns; the objects of the store
    before the construction are unchanged. *)
Theorem chain_invariant h dl d k cs self' h' :
  h !! dl = Some (OInput d) ->
  (a <- __init__ dl k None ;; chain a cs) h = Return self' h' ->
  exists m' t',
    acc_at h' self' m' d t' /\
    data m' = dl /\ annualization m' = k /\
    rindex t' = column_names (tcolumns d) /\
    NoDup (column_names (rcolumns t')) /\
    rectangular t' /\
    (forall n, In n (column_names (rcolumns t')) ->
               exists c, In c cs /\ In n (written c)) /\
    (forall l o, h !! l = Some o -> h' !! l = Some o).
Proof.
  intros Hd. unfold bind at 1. rewrite (fresh_accumulator _ _ _ _ Hd).
  intros Hchain.
  set (m0 := {| data := dl; annualization := k;
                results := length h; _index_type := tkind d |}) in *.
  set (t0 := {| rindex := column_names (tcolumns d); rcolumns := [] |}) in *.
  assert (Ha : acc_at (h ++ [OResults t0; OMetrics m0])%list
                 (S (length h)) m0 d t0).
  { repeat split; cbn [data results m0].
    - rewrite lookup_app_r by lia.
      by replace (S (length h) - length h)%nat with 1%nat by lia.
    - by apply lookup_grow.
    - by rewrite list_lookup_middle. }
  assert (Hrect0 : rectangular t0) by by intros n col [].
  destruct (chain_preserves cs _ _ _ _ _ _ _ Ha eq_refl NoDup_nil_2
              Hrect0 Hchain)
    as (m' & t' & Hacc' & Hd' & Hk' & Hrows' & Hnd' & Hrect' & Hnames & Hold').
  exists m', t'.
  split; [done|]. split; [done|]. split; [done|].
  split; [done|]. split; [done|]. split; [done|]. split.
  - intros n Hn. by destruct (Hnames n Hn) as [[]|].
  - intros l o Hl. by apply Hold', lookup_grow.
Qed.

End Composition.

Lemma statistic_ignores_results_witness :
  acc_at example_heap_var 5 example_acc_x example_table example_results_x /\
  acc_at example_heap_var 8 example_acc_var example_table example_results_var /\
  annualization example_acc_x = annualization example_acc_var /\
  _index_type example_acc_x = _index_type example_acc_var /\
  rindex example_results_x = column_names (tcolumns example_table) /\
  rindex example_results_var = column_names (tcolumns example_table) /\
  call isqrt_q no_moment no_moment 5 (Std "s") example_heap_var
  = Return 11%nat example_heap_std /\
  exists b' hb ma' ta' mb' tb',
    call isqrt_q no_moment no_moment 8 (Std "s") example_heap_var
    = Return b' hb /\
    acc_at example_heap_std 11 ma' example_table ta' /\
    acc_at hb b' mb' example_table tb' /\
    forall n, In n (written (Std "s")) ->
      exists col,
        assoc n (rcolumns ta') = Some col /\
        assoc n (rcolumns tb') = Some col.
Proof.
  split; [by repeat split|]. split; [by repeat split|].
  split; [reflexivity|]. split; [reflexivity|].
  split; [reflexivity|]. split; [reflexivity|].
  split; [vm_compute; reflexivity|].
  apply (statistic_ignores_results isqrt_q no_moment no_moment
           example_heap_var 5 8 example_acc_x example_acc_var example_table
           example_results_x example_results_var (Std "s") 11
           example_heap_std); try reflexivity.
  - by repeat split.
  - by repeat split.
Defined.

Lemma repeated_call_same_table_witness :
  acc_at example_heap 2 example_acc example_table example_results /\
  rindex example_results = column_names (tcolumns example_table) /\
  NoDup (column_names (rcolumns example_results)) /\
  _index_type example_acc = tkind example_table /\
  call isqrt_q no_moment no_moment 2 (Mean "x") example_heap
  = Return 5%nat example_heap_x /\
  exists c2 h2 mb mc tb,
    call isqrt_q no_moment no_moment 5 (Mean "x") example_heap_x
    = Return c2 h2 /\
    acc_at example_heap_x 5 mb example_table tb /\
    acc_at h2 c2 mc example_table tb.
Proof.
  split; [by repeat split|]. split; [reflexivity|].
  split; [apply NoDup_nil_2|]. split; [reflexivity|].
  split; [vm_compute; reflexivity|].
  apply (repeated_call_same_table isqrt_q no_moment no_moment
           example_heap 2 example_acc example_table example_results
           (Mean "x") 5 example_heap_x); try reflexivity.
  - by repeat split.
  - apply NoDup_nil_2.
Defined.

Lemma disjoint_calls_commute_witness :
  acc_at example_heap 2 example_acc example_table example_results /\
  rindex example_results = column_names (tcolumns example_table) /\
  _index_type example_acc = tkind example_table /\
  (forall n, In n (written (Mean "m")) -> ~ In n (written (VaR_ 0 "v"))) /\
  call isqrt_q no_moment no_moment 2 (Mean "m") example_heap
  = Return 5%nat example_heap_m /\
  call isqrt_q no_moment no_moment 5 (VaR_ 0 "v") example_heap_m
  = Return 8%nat example_heap_m_v /\
  call isqrt_q no_moment no_moment 2 (VaR_ 0 "v") example_heap
  = Return 5%nat example_heap_v /\
  call isqrt_q no_moment no_moment 5 (Mean "m") example_heap_v
  = Return 8%nat example_heap_v_m /\
  exists m12 t12 m21 t21,
    acc_at example_heap_m_v 8 m12 example_table t12 /\
    acc_at example_heap_v_m 8 m21 example_table t21 /\
    rindex t12 = rindex t21 /\
    forall n, assoc n (rcolumns t12) = assoc n (rcolumns t21).
Proof.
  assert (Hdisj : forall n, In n (written (Mean "m")) ->
                            ~ In n (written (VaR_ 0 "v"))).
  { intros n [<-|[]] [H|[]]. discriminate. }
  split; [by repeat split|]. split; [reflexivity|]. split; [reflexivity|].
  split; [exact Hdisj|].
  split; [vm_compute; reflexivity|]. split; [vm_compute; reflexivity|].
  split; [vm_compute; reflexivity|]. split; [vm_compute; reflexivity|].
  apply (disjoint_calls_commute isqrt_q no_moment no_moment
           example_heap 2 example_acc example_table example_results
           (Mean "m") (VaR_ 0 "v") 5 example_heap_m 8 example_heap_m_v
           5 example_heap_v 8 example_heap_v_m);
    try reflexivity; try exact Hdisj.
  by repeat split.
Defined.

Lemma chain_invariant_witness :
  [OInput example_table] !! 0%nat = Some (OInput example_table) /\
  (a <- __init__ 0 4 None ;;
   chain isqrt_q no_moment no_moment a [Mean "m"; Std "s"])
    [OInput example_table]
  = Return 8%nat example_chain_heap /\
  exists m' t',
    acc_at example_chain_heap 8 m' example_table t' /\
    data m' = 0%nat /\ annualization m' = 4%Z /\
    rindex t' = column_names (tcolumns example_table) /\
    NoDup (column_names (rcolumns t')) /\
    rectangular t' /\
    (forall n, In n (column_names (rcolumns t')) ->
               exists c, In c [Mean "m"; Std "s"] /\ In n (written c)) /\
    (forall l o, [OInput example_table] !! l = Some o ->
                 example_chain_heap !! l = Some o).
Proof.
  split; [reflexivity|]. split; [vm_compute; reflexivity|].
  apply (chain_invariant isqrt_q no_moment no_moment
           [OInput example_table] 0 example_table 4 [Mean "m"; Std "s"]
           8 example_chain_heap).
  - reflexivity.
  - vm_compute. reflexivity.
Defined.

(** ** [sharpe] and [basic_stats] *)

Lemma lookup_series_value {A} (f : list Q -> A) (d : InputTable) i asset returns :
  tcolumns d !! i = Some (asset, returns) ->
  map snd (map (fun cv => (fst cv, f (snd cv))) (tcolumns d)) !! i
  = Some (f returns).
Proof.
  intros Hi. rewrite map_map. simpl.
  change (map ?g ?l) with (g <$> l).
  by rewrite list_lookup_fmap, Hi.
Qed.

Section Sharpe.

Variable sqrtq : Q -> Q.
Variable col_skew col_kurtosis : list Q -> Cell.

Let call := call sqrtq col_skew col_kurtosis.


End Sharpe.


(** A constant series has a standard deviation of zero: its Sharpe ratio is
    reported as infinite, not raised. *)
Example sharpe_of_constant_series :
  match (a <- __init__ 0 1 None ;; sharpe isqrt_q a 0 "sharpe")
          [OInput {| tkind := IntIndex; tindex := [0; 1]%Z;
                     tcolumns := [("a", [0.01; 0.01])] |}] with
  | Return self' h' =>
      match h' !! 4%nat with
      | Some (OResults t') => cell_at t' "sharpe" "a" = Some CPosInf
      | _ => False
      end
  | Raise _ _ => False
  end.
Proof. vm_compute. reflexivity. Qed.

Section BasicStats.

Variable sqrtq : Q -> Q.
Variable col_skew col_kurtosis : list Q -> Cell.



End BasicStats.


(** On the example (returns [1; 3; 5], factor [4]): mean [12], standard
    deviation [4], Sharpe ratio [3]. *)
Example basic_stats_example :
  match basic_stats isqrt_q 2 example_heap with
  | Return self' h' =>
      match h' !! 10%nat with
      | Some (OResults t') =>
          column_names (rcolumns t') = ["mean"; "std"; "sharpe"] /\
          exists x, cell_at t' "sharpe" "a" = Some x /\ cell_eq x (CNum 3)
      | _ => False
      end
  | Raise _ _ => False
  end.
Proof. vm_compute. split; [reflexivity|]. eexists. split; reflexivity. Qed.

(** ** [tail_risk] and [VaR] *)

Lemma CVaR_outcome self q name h :
  exists e h', CVaR self q name h = Raise e h'.
Proof.
  unfold CVaR, bind, read_metrics, read_input.
  destruct (h !! self) as [[| |m]|]; try by eexists _, _.
  destruct (h !! data m) as [[d| |]|]; try by eexists _, _.
  destruct (df_quantile d q); by eexists _, _.
Qed.

(** [tail_risk] never returns: whatever the store, the receiver and the
    quantile, the chained [CVaR] raises.  On a valid accumulator the
    exception is a [ValueError], and every object of the store before the
    call, the receiver and its result table included, is unchanged. *)
Theorem tail_risk_never_returns self q h :
  (forall a h', tail_risk self q h <> Return a h') /\
  (forall m d t, acc_at h self m d t ->
     exists msg h',
       tail_risk self q h = Raise (ValueError msg) h' /\
       forall l o, h !! l = Some o -> h' !! l = Some o).
Proof.
  split.
  - intros a h'. unfold tail_risk, bind.
    destruct (VaR self q "VaR" h) as [b h1|e h1]; [|done].
    by destruct (CVaR_outcome b q "CVaR" h1) as (e & h2 & ->).
  - intros m d t Hacc.
    pose proof (call_eval (fun x => x) no_moment no_moment h self m d t
                  (TailRisk q) Hacc) as Hpost.
    simpl in Hpost.
    destruct (tail_risk self q h) as [a h'|e h'].
    + exfalso.
      destruct (call_post_return _ _ _ _ _ _ _ _ Hacc Hpost) as (t' & m' & E & _).
      destruct (df_quantile d q) as [var|]; simpl in E; [|done].
      by destruct (setitem_table t "VaR" var).
    + destruct (call_post_raise _ _ _ _ _ _ Hpost) as [E Hold].
      assert (exists msg, e = ValueError msg) as (msg & ->).
      { unfold df_quantile in E.
        destruct (Qle_bool 0 q && Qle_bool q 1); simpl in E;
          [|injection E as <-; eauto].
        unfold setitem_table in E.
        destruct (reindex_for_setitem _ _) as [vals|e'] eqn:Hre; simpl in E.
        - injection E as <-. eauto.
        - injection E as <-. unfold reindex_for_setitem in Hre.
          destruct (_ || _); [done|].
          destruct (nodupb _); [done|]. injection Hre as <-. eauto. }
      eauto.
Qed.

Lemma tail_risk_never_returns_witness :
  acc_at example_heap 2 example_acc example_table example_results /\
  exists msg h',
    tail_risk 2 (1 # 20) example_heap = Raise (ValueError msg) h' /\
    forall l o, example_heap !! l = Some o -> h' !! l = Some o.
Proof.
  assert (Hacc : acc_at example_heap 2 example_acc example_table
                   example_results) by by repeat split.
  split; [exact Hacc|].
  exact (proj2 (tail_risk_never_returns 2 (1 # 20) example_heap)
           example_acc example_table example_results Hacc).
Defined.

Example tail_risk_example :
  tail_risk 2 (1 # 20) example_heap
  = Raise (ValueError "Cannot index with multidimensional key")
      (final (VaR 2 (1 # 20) "VaR" example_heap)).
Proof. vm_compute. reflexivity. Qed.

(** *** The quantile of a column *)












(** [VaR] checks the quantile before it derives anything: outside [0, 1]
    the call raises [ValueError] and the store is as it was, so no
    accumulator is derived. *)
Theorem VaR_rejects_quantile_outside_unit_interval h self m d t q name :
  acc_at h self m d t ->
  q < 0 \/ 1 < q ->
  VaR self q name h
  = Raise (ValueError "percentiles should all be in the interval [0, 1]") h.
Proof.
  intros (Hself & Hdata & Hres) Hq.
  unfold VaR, bind, read_metrics, read_input, lift, df_quantile.
  rewrite Hself, Hdata.
  replace (Qle_bool 0 q && Qle_bool q 1) with false; [done|].
  symmetry. apply andb_false_iff.
  destruct Hq as [Hq|Hq]; [left|right];
    (destruct (Qle_bool _ _) eqn:E; [|done]);
    apply Qle_bool_iff in E; lra.
Qed.

Lemma VaR_rejects_quantile_outside_unit_interval_witness :
  acc_at example_heap 2 example_acc example_table example_results /\
  (3 # 2 < 0 \/ 1 < 3 # 2) /\
  VaR 2 (3 # 2) "VaR" example_heap
  = Raise (ValueError "percentiles should all be in the interval [0, 1]")
      example_heap.
Proof.
  assert (Hacc : acc_at example_heap 2 example_acc example_table
                   example_results) by (vm_compute; done).
  assert (Hq : 3 # 2 < 0 \/ 1 < 3 # 2) by (right; reflexivity).
  split; [exact Hacc|]. split; [exact Hq|].
  exact (VaR_rejects_quantile_outside_unit_interval
           example_heap 2 example_acc example_table example_results
           (3 # 2) "VaR" Hacc Hq).
Defined.



(** The quantile interpolates linearly between the order statistics: of
    the returns 5, 1, 3 the quartile is 2, the median 3, and the quantiles
    0 and 1 are the extremes. *)
Example col_quantile_example :
  cell_eq (col_quantile (1 # 4) [5; 1; 3]) (CNum 2) /\
  cell_eq (col_quantile (1 # 2) [5; 1; 3]) (CNum 3) /\
  cell_eq (col_quantile 0 [5; 1; 3]) (CNum 1) /\
  cell_eq (col_quantile 1 [5; 1; 3]) (CNum 5) /\
  cell_eq (col_quantile (1 # 2) [4; 1]) (CNum (5 # 2)).
Proof. by vm_compute. Qed.

(** ** Drawdown: the recovery date *)




Lemma getitem_spec {A} index (vs : list A) i t :
  NoDup index -> length index = length vs ->
  index !! i = Some t ->
  getitem t (combine index vs)
  = of_option (vs !! i) (KeyError "label not in index").
Proof.
  intros Hnd Hlen Hi. unfold getitem.
  rewrite map_fst_combine_eq, map_snd_combine_eq by done.
  by rewrite (pos_of_NoDup _ _ _ Hnd Hi), nth_error_lookup.
Qed.








(** The asset of [recovery_table] has the wealth path 1.1, 0.88, 1.32: the
    trough is at step 1 and the wealth is back above the peak at step 2. *)
Example recovery_date_example :
  match recovery_heap_dd !! 4%nat with
  | Some (OResults t') =>
      cell_at t' "dd_peak_date" "a" = Some (CNum 0) /\
      cell_at t' "dd_trough_date" "a" = Some (CNum 1) /\
      cell_at t' "dd_recovery_date" "a" = Some (CNum 2)
  | _ => False
  end.
Proof. vm_compute. by repeat split. Qed.

(** ** Drawdown: dates under the default integer index *)








Lemma drawdown_column_head returns :
  (forall r, In r returns -> -1 < r) -> returns <> [] ->
  exists q rest, drawdown_column returns = CNum q :: rest /\ q == 0.
Proof.
  intros Hr Hne. pose proof (fun w => cumulative_of_pos returns w Hr) as Hpos.
  unfold drawdown_column. unfold cumulative_of in *.
  destruct returns as [|r0 rs]; [done|]. simpl in *.
  rewrite q_div_pos by (apply Hpos; by left).
  eexists _, _. split; [done|]. apply Qdiv_sub_self.
Qed.





Lemma details_loop_returns d ity cols dates :
  (forall c, In c cols ->
     exists dd cum pk x,
       assoc c (drawdown_frame d) = Some dd /\
       assoc c (cumulative_frame d) = Some cum /\
       assoc c (peak_frame d) = Some pk /\
       details_of (tkind d) (tindex d) cum pk dd = Done x) ->
  exists r, details_loop d ity cols dates = Done r.
Proof.
  revert dates. induction cols as [|col rest IH]; intros dates Hall; simpl.
  - eauto.
  - destruct dates as [[p t] r].
    destruct (Hall col) as (dd & cum & pk & [[pd td] rd] & -> & -> & -> & Hd);
      [by left|].
    cbn -[details_of]. rewrite Hd. cbn -[details_of].
    apply IH. intros c Hc. apply Hall. by right.
Qed.





(** Both cases on one-asset tables: the asset of [recovery_table] has a
    loss at step 1 and the call returns; an asset that only gains makes the
    call raise. *)
Example details_under_integer_index_example :
  (exists self' h',
     max_drawdown 2 "dd" true "returns" recovery_heap = Return self' h') /\
  (a <- __init__ 0 1 None ;; max_drawdown a "dd" true "returns")
    [OInput {| tkind := IntIndex; tindex := [0; 1]%Z;
               tcolumns := [("a", [0.1; 0.2])] |}]
  = Raise (ValueError "attempt to get argmax of an empty sequence")
      (final (__init__ 0 1 None
                [OInput {| tkind := IntIndex; tindex := [0; 1]%Z;
                           tcolumns := [("a", [0.1; 0.2])] |}])).
Proof. split; [by eexists _, _ | reflexivity]. Qed.

(** ** Drawdown: the range of the statistic *)



Lemma loss_or_none (rs : list Q) :
  (forall j r, rs !! j = Some r -> 0 <= r) \/
  (exists j r, rs !! j = Some r /\ r < 0).
Proof.
  induction rs as [|x rs IH].
  - left. by intros j r.
  - destruct (Qlt_le_dec x 0) as [Hneg|Hpos].
    + right. by exists 0%nat, x.
    + destruct IH as [Hall|(j & r & Hj & Hr)].
      * left. intros [|j] r; simpl; [by intros [= <-] | apply Hall].
      * right. by exists (S j), r.
Qed.




(** ** [__dir__] against [__getattr__] *)

Lemma insert_name_In x y l : In y (insert_name x l) <-> y = x \/ In y l.
Proof.
  induction l as [|z l IH]; simpl; [intuition|].
  destruct (String.leb x z); simpl; [intuition|].
  rewrite IH. intuition.
Qed.

Lemma py_sorted_In y l : In y (py_sorted l) <-> In y l.
Proof.
  induction l as [|x l IH]; simpl; [done|].
  rewrite insert_name_In, IH. intuition.
Qed.

Lemma insert_name_NoDup x l :
  ~ In x l -> NoDup l -> NoDup (insert_name x l).
Proof.
  induction l as [|z l IH]; simpl; intros Hx Hnd.
  - apply NoDup_singleton.
  - destruct (String.leb x z).
    + apply NoDup_cons. split; [|done].
      rewrite list_elem_of_In. simpl. tauto.
    + apply NoDup_cons in Hnd as [Hz Hnd]. apply NoDup_cons. split.
      * rewrite list_elem_of_In, insert_name_In.
        rewrite list_elem_of_In in Hz. intros [->|?]; tauto.
      * apply IH; [tauto | done].
Qed.

Lemma py_sorted_NoDup l : NoDup l -> NoDup (py_sorted l).
Proof.
  induction l as [|x l IH]; simpl; [done|].
  intros [Hx Hnd]%NoDup_cons. apply insert_name_NoDup; [|by apply IH].
  rewrite py_sorted_In. by rewrite list_elem_of_In in Hx.
Qed.

Lemma insert_name_Sorted x l :
  Sorted (fun a b => String.leb a b = true) l ->
  Sorted (fun a b => String.leb a b = true) (insert_name x l).
Proof.
  induction l as [|z l IH]; simpl; intros Hs.
  - by repeat constructor.
  - destruct (String.leb x z) eqn:E.
    + constructor; [done | by constructor].
    + apply Sorted_inv in Hs as [Hs Hhd].
      constructor; [by apply IH|].
      assert (Hzx : String.leb z x = true).
      { destruct (String.leb_total x z); congruence. }
      destruct l as [|w l]; simpl.
      * by constructor.
      * destruct (String.leb x w); constructor; [done|].
        by apply HdRel_inv in Hhd.
Qed.

Lemma py_sorted_Sorted l :
  Sorted (fun a b => String.leb a b = true) (py_sorted l).
Proof.
  induction l as [|x l IH]; simpl; [constructor|].
  by apply insert_name_Sorted.
Qed.

Section DirFacts.

Variable class_dir : list string.
Variable results_dir : ResultTable -> list string.

(** What [dir(A)] lists and what attribute access resolves agree.  The
    listing is in ascending order without repetition; it has every name of
    the class, every name bound by the constructor and every name of the
    allow-list; and, provided the table has the [_repr_] attributes its own
    listing shows, every name in it is found by normal lookup or forwarded
    by [__getattr__] to the result table: [dir] offers no name whose access
    raises [AttributeError].  The store is left as it is. *)
Theorem dir_lists_what_getattr_resolves h self m d t :
  acc_at h self m d t ->
  (forall a, In a (results_dir t) -> String.prefix "_repr_" a = true ->
             hasattr_results t a = true) ->
  exists names,
    __dir__ class_dir results_dir self h = Return names h /\
    NoDup names /\
    Sorted (fun a b => String.leb a b = true) names /\
    (forall a, In a class_dir \/ In a instance_dict \/ In a _proxy ->
               In a names) /\
    (forall a, In a names ->
               In a class_dir \/ In a instance_dict \/
               __getattr__ self a h = Return (Forwarded (results m) a) h).
Proof.
  intros (Hself & Hdata & Hres) Hhas.
  eexists. split.
  { unfold __dir__, bind, read_metrics, read_results.
    rewrite Hself, Hres. reflexivity. }
  split; [apply py_sorted_NoDup, NoDup_remove_dups|].
  split; [apply py_sorted_Sorted|].
  split.
  - intros a Ha. apply py_sorted_In, list_elem_of_In, elem_of_remove_dups.
    rewrite !elem_of_app, !list_elem_of_In. tauto.
  - intros a Ha.
    rewrite py_sorted_In, <- list_elem_of_In, elem_of_remove_dups,
      !elem_of_app, !list_elem_of_In in Ha.
    destruct Ha as [[?|?]|[Hp|Hr]]; [tauto | tauto | |]; right; right;
      unfold __getattr__, bind, read_metrics, read_results;
      rewrite Hself, Hres.
    + apply mem_In in Hp. by rewrite Hp.
    + apply filter_In in Hr as [Hin Hpre].
      rewrite Hpre, (Hhas a Hin Hpre). by destruct (mem a _proxy).
Qed.

End DirFacts.

Lemma dir_lists_what_getattr_resolves_witness :
  acc_at example_heap 2 example_acc example_table example_results /\
  (forall a, In a (example_results_dir example_results) ->
             String.prefix "_repr_" a = true ->
             hasattr_results example_results a = true) /\
  exists names,
    __dir__ example_class_dir example_results_dir 2 example_heap
    = Return names example_heap /\
    NoDup names /\
    Sorted (fun a b => String.leb a b = true) names /\
    (forall a, In a example_class_dir \/ In a instance_dict \/ In a _proxy ->
               In a names) /\
    (forall a, In a names ->
               In a example_class_dir \/ In a instance_dict \/
               __getattr__ 2 a example_heap
               = Return (Forwarded (results example_acc) a) example_heap).
Proof.
  assert (Hacc : acc_at example_heap 2 example_acc example_table
                   example_results) by by repeat split.
  assert (Hhas : forall a, In a (example_results_dir example_results) ->
                   String.prefix "_repr_" a = true ->
                   hasattr_results example_results a = true).
  { intros a Ha Hpre. simpl in Ha.
    repeat (destruct Ha as [<-|Ha]; [by vm_compute in Hpre |- *|]).
    done. }
  split; [exact Hacc|]. split; [exact Hhas|].
  exact (dir_lists_what_getattr_resolves example_class_dir example_results_dir
           example_heap 2 example_acc example_table example_results
           Hacc Hhas).
Defined.

(** On the example the listing starts with the capitals, as the order of
    characters has it, and has the forwarded [_repr_html_]. *)
Example dir_example :
  exists names,
    __dir__ example_class_dir example_results_dir 2 example_heap
    = Return names example_heap /\
    firstn 3 names = ["CVaR"; "T"; "VaR"] /\
    In "_repr_html_" names /\ ~ In "loc" names.
Proof.
  eexists. split; [vm_compute; reflexivity|].
  split; [reflexivity|]. split.
  - apply mem_In. by vm_compute.
  - intros H%mem_In. by vm_compute in H.
Qed.

(** ** Fewer than two observations *)

Lemma col_std_short sqrtq returns :
  (length returns <= 1)%nat -> col_std sqrtq returns = CNaN.
Proof.
  intros Hlen. unfold col_std, col_var.
  destruct returns as [|r [|r' rs]]; [done | done | simpl in Hlen; lia].
Qed.

Section ShortSeries.

Variable sqrtq : Q -> Q.

(** The standard deviation is the sample one: with fewer than two
    observations of an asset, [std] reports NaN for it, whatever the
    annualization factor, and so does [sharpe] (when the factor is not
    zero), whatever the mean and the risk-free rate. *)
Theorem std_and_sharpe_need_two_observations h self m d t name rf :
  acc_at h self m d t ->
  rindex t = column_names (tcolumns d) ->
  (exists a h1 ma ta col,
      std sqrtq self name h = Return a h1 /\
      acc_at h1 a ma d ta /\
      assoc name (rcolumns ta) = Some col /\
      forall i asset returns,
        tcolumns d !! i = Some (asset, returns) ->
        (length returns <= 1)%nat -> col !! i = Some CNaN) /\
  (annualization m <> 0%Z ->
   exists a h1 ma ta col,
      sharpe sqrtq self rf name h = Return a h1 /\
      acc_at h1 a ma d ta /\
      assoc name (rcolumns ta) = Some col /\
      forall i asset returns,
        tcolumns d !! i = Some (asset, returns) ->
        (length returns <= 1)%nat -> col !! i = Some CNaN).
Proof.
  intros Hacc Hrows. pose proof Hacc as (Hself & Hdata & Hres). split.
  - eexists _, _, _, _, _.
    split; [by apply std_eval|].
    split; [by apply derived_acc|].
    split; [apply assoc_set_column_same|].
    intros i asset returns Hi Hlen. unfold std_series.
    rewrite (lookup_series_value
               (fun rs => cell_scale (col_std sqrtq rs)
                            (pow_half sqrtq (annualization m)))
               d i asset returns Hi).
    by rewrite col_std_short.
  - intros Hk. apply Z.eqb_neq in Hk.
    eexists _, _, _, _, _. split.
    { unfold sharpe, bind at 1, read_metrics. rewrite Hself.
      unfold bind at 1, read_input. rewrite Hdata, Hk.
      apply _with_column_aligned; [done|].
      rewrite Hrows. apply sharpe_series_aligned. }
    split; [by apply derived_acc|].
    split; [apply assoc_set_column_same|].
    intros i asset returns Hi Hlen. unfold sharpe_series.
    rewrite (lookup_series_value
               (fun rs =>
                  cell_scale
                    (cell_div (cell_sub (col_mean rs)
                                 (rf / inject_Z (annualization m)))
                              (col_std sqrtq rs))
                    (pow_half sqrtq (annualization m)))
               d i asset returns Hi).
    rewrite col_std_short by done.
    by destruct (cell_sub (col_mean returns) _).
Qed.

End ShortSeries.

Lemma std_and_sharpe_need_two_observations_witness :
  acc_at single_heap 2 tie_acc single_table tie_results /\
  rindex tie_results = column_names (tcolumns single_table) /\
  (exists a h1 ma ta col,
      std isqrt_q 2 "std" single_heap = Return a h1 /\
      acc_at h1 a ma single_table ta /\
      assoc "std" (rcolumns ta) = Some col /\
      forall i asset returns,
        tcolumns single_table !! i = Some (asset, returns) ->
        (length returns <= 1)%nat -> col !! i = Some CNaN) /\
  (annualization tie_acc <> 0%Z ->
   exists a h1 ma ta col,
      sharpe isqrt_q 2 0 "std" single_heap = Return a h1 /\
      acc_at h1 a ma single_table ta /\
      assoc "std" (rcolumns ta) = Some col /\
      forall i asset returns,
        tcolumns single_table !! i = Some (asset, returns) ->
        (length returns <= 1)%nat -> col !! i = Some CNaN).
Proof.
  assert (Hacc : acc_at single_heap 2 tie_acc single_table tie_results)
    by by repeat split.
  split; [exact Hacc|]. split; [reflexivity|].
  exact (std_and_sharpe_need_two_observations isqrt_q single_heap 2 tie_acc
           single_table tie_results "std" 0 Hacc eq_refl).
Defined.

(** One observation: the mean is the observation, the quantile too, the
    drawdown is zero, and the standard deviation and the Sharpe ratio are
    NaN. *)
Example single_observation_example :
  match chain isqrt_q no_moment no_moment 2
          [Mean "mean"; Std "std"; Sharpe 0 "sharpe"; VaR_ (1 # 20) "VaR";
           MaxDrawdown "dd" false "returns"] single_heap with
  | Return self' h' =>
      exists m' t',
        h' !! self' = Some (OMetrics m') /\
        h' !! results m' = Some (OResults t') /\
        cell_at t' "std" "a" = Some CNaN /\
        cell_at t' "sharpe" "a" = Some CNaN /\
        (exists v, cell_at t' "mean" "a" = Some v /\ cell_eq v (CNum 0.1)) /\
        (exists v, cell_at t' "VaR" "a" = Some v /\ cell_eq v (CNum 0.1)) /\
        (exists v, cell_at t' "dd" "a" = Some v /\ cell_eq v (CNum 0))
  | Raise _ _ => False
  end.
Proof.
  vm_compute. eexists _, _. split; [reflexivity|]. split; [reflexivity|].
  split; [reflexivity|]. split; [reflexivity|].
  split; [|split]; eexists; (split; [reflexivity|]); reflexivity.
Qed.

(** ** Column assignment aligns by row name *)

Lemma nodupb_NoDup l : nodupb l = true <-> NoDup l.
Proof.
  induction l as [|x l IH]; simpl.
  - split; [intros _; apply NoDup_nil_2 | done].
  - rewrite andb_true_iff, negb_true_iff, IH, NoDup_cons, list_elem_of_In.
    by rewrite mem_not_In.
Qed.

Lemma reindex_lookup (series : Series) index vals i r :
  index <> [] -> NoDup (map fst series) ->
  reindex_for_setitem series index = Done vals ->
  index !! i = Some r ->
  vals !! i = Some (match assoc r series with Some c => c | None => CNaN end).
Proof.
  intros Hne Hnd. unfold reindex_for_setitem.
  replace (names_eqb index []) with false by (by destruct index).
  rewrite orb_false_r.
  destruct (names_eqb (map fst series) index) eqn:E.
  - apply names_eqb_eq in E. subst index. intros [= <-] Hi.
    destruct (assoc r series) as [c|] eqn:Hc.
    + by apply (assoc_lookup_values series i r c).
    + exfalso. apply assoc_None in Hc. apply Hc.
      apply list_elem_of_In, list_elem_of_lookup. eauto.
  - replace (nodupb (map fst series)) with true
      by (symmetry; by apply nodupb_NoDup).
    intros [= <-] Hi. change (map ?f ?l) with (f <$> l).
    by rewrite list_lookup_fmap, Hi.
Qed.

(** [new_results[name] = series] aligns by row name, whatever the rows of
    the result table are.  On an accumulator whose table has at least one
    row (a seed table need not have the assets as rows), assigning a series
    with distinct keys returns a derived accumulator whose table has the
    same rows; in the new column a row holds the entry of the series under
    the name of the row, and NaN if the series has none: entries of the
    series under other names are dropped without an error.  The receiver's
    table is unchanged. *)
Theorem with_column_aligns_by_row_name h self m d t name series :
  acc_at h self m d t ->
  rindex t <> [] ->
  NoDup (map fst series) ->
  exists self' h' m' t' col,
    _with_column self name series h = Return self' h' /\
    acc_at h' self' m' d t' /\
    h' !! results m = Some (OResults t) /\
    rindex t' = rindex t /\
    assoc name (rcolumns t') = Some col /\
    forall i r,
      rindex t !! i = Some r ->
      col !! i = Some (match assoc r series with
                       | Some c => c
                       | None => CNaN
                       end).
Proof.
  intros Hacc Hne Hnd. pose proof Hacc as (Hself & Hdata & Hres).
  rewrite (_with_column_eval _ _ _ _ _ _ _ Hacc).
  unfold setitem_table. rewrite ensure_valid_index_id by done.
  destruct (reindex_for_setitem series (rindex t)) as [vals|e] eqn:Hre.
  2: { exfalso. unfold reindex_for_setitem in Hre.
       destruct (_ || _); [done|].
       replace (nodupb (map fst series)) with true in Hre
         by (symmetry; by apply nodupb_NoDup).
       done. }
  simpl. eexists _, _, _, _, vals.
  split; [reflexivity|].
  split; [by apply derived_acc|].
  split; [by apply lookup_grow|].
  split; [reflexivity|].
  split; [apply assoc_set_column_same|].
  intros i r Hi. by apply (reindex_lookup series (rindex t)).
Qed.

Lemma with_column_aligns_by_row_name_witness :
  acc_at seed_rows_heap 3 seed_rows_acc example_table seed_rows_table /\
  rindex seed_rows_table <> [] /\
  NoDup (map fst (mean_series example_table 4)) /\
  exists self' h' m' t' col,
    _with_column 3 "mean" (mean_series example_table 4) seed_rows_heap
    = Return self' h' /\
    acc_at h' self' m' example_table t' /\
    h' !! results seed_rows_acc = Some (OResults seed_rows_table) /\
    rindex t' = rindex seed_rows_table /\
    assoc "mean" (rcolumns t') = Some col /\
    forall i r,
      rindex seed_rows_table !! i = Some r ->
      col !! i = Some (match assoc r (mean_series example_table 4) with
                       | Some c => c
                       | None => CNaN
                       end).
Proof.
  assert (Hacc : acc_at seed_rows_heap 3 seed_rows_acc example_table
                   seed_rows_table) by by repeat split.
  assert (Hne : rindex seed_rows_table <> []) by done.
  assert (Hnd : NoDup (map fst (mean_series example_table 4)))
    by apply NoDup_singleton.
  split; [exact Hacc|]. split; [exact Hne|]. split; [exact Hnd|].
  exact (with_column_aligns_by_row_name seed_rows_heap 3 seed_rows_acc
           example_table seed_rows_table "mean"
           (mean_series example_table 4) Hacc Hne Hnd).
Defined.

(** On that accumulator [mean] fills the row [a] with the annualized mean
    of the asset and the row [b], which is no asset, with NaN. *)
Example seed_rows_example :
  match mean 3 "mean" seed_rows_heap with
  | Return self' h' =>
      match h' !! 5%nat with
      | Some (OResults t') =>
          rindex t' = ["b"; "a"] /\
          cell_at t' "mean" "b" = Some CNaN /\
          exists v, cell_at t' "mean" "a" = Some v /\ cell_eq v (CNum 12)
      | _ => False
      end
  | Raise _ _ => False
  end.
Proof.
  vm_compute. split; [reflexivity|]. split; [reflexivity|].
  eexists. split; reflexivity.
Qed.

(** ** Drawdown: dates under time labels *)

(** The loop body under distinct time labels: the slice up to the trough
    has the trough in it, so it reports dates for every column with at
    least one step. *)
Lemma details_of_labels index returns :
  NoDup index -> length index = length returns -> returns <> [] ->
  (forall r, In r returns -> -1 < r) ->
  exists dates,
    details_of LabelIndex index (cumulative_of returns)
      (cummax (cumulative_of returns)) (drawdown_column returns)
    = Done dates.
Proof.
  intros Hnd Hli Hne Hr. unfold details_of, idxmin.
  assert (Hld : length index = length (drawdown_column returns))
    by by rewrite drawdown_column_length.
  assert (Hlw : length index = length (cumulative_of returns))
    by by rewrite cumulative_of_length.
  assert (Hlp : length index = length (cummax (cumulative_of returns)))
    by by rewrite cummax_length, cumulative_of_length.
  fold (drawdown_column returns).
  rewrite map_snd_combine_eq, map_fst_combine_eq by done.
  destruct (drawdown_column_head returns Hr Hne) as (q0 & rest & Hdd & _).
  destruct (argmin (drawdown_column returns)) as [p|] eqn:Hmin.
  2: { by rewrite Hdd in Hmin. }
  destruct (argmin_spec _ _ Hmin) as (c & Hc & _).
  apply lookup_lt_Some in Hc. rewrite <- Hld in Hc.
  rewrite nth_error_lookup.
  destruct (index !! p) as [td|] eqn:Htd.
  2: { apply lookup_ge_None in Htd. lia. }
  simpl. rewrite map_fst_combine_eq, (pos_of_NoDup _ _ _ Hnd Htd) by done.
  simpl. unfold idxmax.
  rewrite <- !firstn_map, map_snd_combine_eq, map_fst_combine_eq by done.
  destruct (argmax (firstn (S p) (cumulative_of returns))) as [pi|] eqn:Hmax.
  2: { destruct (cumulative_of returns) eqn:E; [|done].
       simpl in Hlw. lia. }
  destruct (argmax_spec _ _ Hmax) as (v & Hv & _).
  apply lookup_take_Some in Hv as [Hv Hpik].
  rewrite nth_error_lookup.
  change (firstn ?n ?l) with (take n l).
  rewrite lookup_take_lt by done.
  destruct (index !! pi) as [pd|] eqn:Hpd.
  2: { apply lookup_ge_None in Hpd. lia. }
  simpl. rewrite (getitem_spec index _ pi pd Hnd Hlp Hpd).
  destruct (cummax (cumulative_of returns) !! pi) as [pv|] eqn:Hpv.
  - simpl. eauto.
  - apply lookup_ge_None in Hpv. lia.
Qed.

Lemma max_drawdown_details_returns h self m d t name data_type dates :
  acc_at h self m d t ->
  rindex t = column_names (tcolumns d) ->
  data_type <> "prices" ->
  details_loop d (_index_type m) (column_names (tcolumns d))
    (empty_dates d, empty_dates d, empty_dates d) = Done dates ->
  exists self' h', max_drawdown self name true data_type h = Return self' h'.
Proof.
  intros Hacc Hrows Hdt Hloop. destruct dates as [[p tr] r].
  pose proof (max_drawdown_post h self m d t name true data_type Hacc)
    as Hpost.
  destruct (max_drawdown self name true data_type h) as [self' h'|e h'];
    [eauto|].
  exfalso. destruct (call_post_raise _ _ _ _ _ _ Hpost) as [E _].
  apply String.eqb_neq in Hdt. rewrite Hdt in E.
  destruct (max_drawdown_data d (_index_type m) name true)
    as [new_data|] eqn:Hdata'.
  2: { unfold max_drawdown_data in Hdata'. by rewrite Hloop in Hdata'. }
  destruct (max_drawdown_data_details _ _ _ _ Hdata')
    as (p' & tr' & r' & Hloop' & ->).
  rewrite Hloop in Hloop'. injection Hloop' as <- <- <-.
  destruct (details_loop_keys _ _ _ _ _ _ _ _ _ Hloop) as (Hp & Htr & Hrk).
  pose proof (empty_dates_aligned d) as He. unfold aligned in He.
  rewrite He in Hp, Htr, Hrk.
  simpl in E.
  rewrite setitem_table_aligned in E
    by (rewrite Hrows; apply max_drawdown_series_aligned).
  simpl in E. rewrite setitem_table_aligned in E by (simpl; congruence).
  simpl in E. rewrite setitem_table_aligned in E by (simpl; congruence).
  simpl in E. rewrite setitem_table_aligned in E by (simpl; congruence).
  done.
Qed.

(** Under distinct time labels the slice [cumulative[col][:trough]] goes by
    label and has the trough in it.  So, on an input table with at least
    one time step and returns above [-1],
    [max_drawdown(name, details=True)] returns, also for an asset that
    never falls below its running peak. *)
Theorem details_return_under_time_labels h self m d t name data_type :
  acc_at h self m d t ->
  rindex t = column_names (tcolumns d) ->
  wf_input d ->
  tkind d = LabelIndex ->
  tindex d <> [] ->
  (forall col returns r,
      In (col, returns) (tcolumns d) -> In r returns -> -1 < r) ->
  data_type <> "prices" ->
  exists self' h', max_drawdown self name true data_type h = Return self' h'.
Proof.
  intros Hacc Hrows (Hnd & Hok & Hlen) Hkind Hrows_ne Hr Hdt.
  rewrite Hkind in Hok. simpl in Hok.
  destruct (details_loop_returns d (_index_type m)
              (column_names (tcolumns d))
              (empty_dates d, empty_dates d, empty_dates d)) as (dates & Hloop).
  { intros c ([c' returns] & <- & Hin)%in_map_iff. simpl.
    destruct (frames_of_column d c' returns Hnd Hin) as (? & ? & ?).
    destruct (details_of_labels (tindex d) returns) as (x & Hx).
    - done.
    - symmetry. by apply (Hlen c').
    - intros E. apply Hlen in Hin. subst returns.
      destruct (tindex d); [done | simpl in Hin; lia].
    - intros r. by apply (Hr c').
    - exists (drawdown_column returns), (cumulative_of returns),
        (cummax (cumulative_of returns)), x.
      rewrite Hkind. by repeat split. }
  by apply (max_drawdown_details_returns h self m d t name data_type dates).
Qed.

Lemma labelled_table_wf : wf_input labelled_table.
Proof.
  split; [apply NoDup_singleton|]. split.
  - simpl. apply NoDup_cons. split; [|apply NoDup_singleton].
    by intros [= ]%list_elem_of_singleton.
  - intros col returns [[= <- <-]|[]]. reflexivity.
Qed.

Lemma labelled_table_returns col returns r :
  In (col, returns) (tcolumns labelled_table) -> In r returns -> -1 < r.
Proof.
  intros [[= <- <-]|[]] Hr. simpl in Hr.
  destruct Hr as [<-|[<-|[]]]; reflexivity.
Qed.

Lemma details_return_under_time_labels_witness :
  acc_at labelled_heap 2 labelled_acc labelled_table tie_results /\
  rindex tie_results = column_names (tcolumns labelled_table) /\
  wf_input labelled_table /\
  tkind labelled_table = LabelIndex /\
  tindex labelled_table <> [] /\
  (forall col returns r,
      In (col, returns) (tcolumns labelled_table) -> In r returns -> -1 < r) /\
  "returns" <> "prices" /\
  exists self' h',
    max_drawdown 2 "dd" true "returns" labelled_heap = Return self' h'.
Proof.
  assert (Hacc : acc_at labelled_heap 2 labelled_acc labelled_table
                   tie_results) by by repeat split.
  assert (H1 : tindex labelled_table <> []) by done.
  assert (H2 : "returns" <> "prices") by done.
  split; [exact Hacc|]. split; [reflexivity|].
  split; [exact labelled_table_wf|]. split; [reflexivity|].
  split; [exact H1|]. split; [exact labelled_table_returns|].
  split; [exact H2|].
  exact (details_return_under_time_labels labelled_heap 2 labelled_acc
           labelled_table tie_results "dd" "returns"
           Hacc eq_refl labelled_table_wf eq_refl H1
           labelled_table_returns H2).
Defined.

(** The asset that only gains, under time labels: the statistic is zero
    and the three dates are the first label. *)
Example labelled_details_example :
  match max_drawdown 2 "dd" true "returns" labelled_heap with
  | Return self' h' =>
      match h' !! 4%nat with
      | Some (OResults t') =>
          (exists v, cell_at t' "dd" "a" = Some v /\ cell_eq v (CNum 0)) /\
          cell_at t' "dd_peak_date" "a" = Some (CTime 10) /\
          cell_at t' "dd_trough_date" "a" = Some (CTime 10) /\
          cell_at t' "dd_recovery_date" "a" = Some (CTime 10)
      | _ => False
      end
  | Raise _ _ => False
  end.
Proof.
  vm_compute. split; [|by repeat split].
  eexists. split; reflexivity.
Qed.
